(** * security_search: the index synchroniser and the query of [index.js]

    A shallow embedding of [buildIndex] and [runQuery] together with the
    helpers they call.  The two SQLite tables are explicit state, the SQL
    write statements the code issues are recorded in a journal, and the
    services the code talks to (file system, clock, OpenAI) are an
    environment of oracles. *)

From Stdlib Require Import QArith Qabs.
From stdpp Require Import gmap strings list sorting.

Local Open Scope string_scope.
Local Open Scope Z_scope.
Local Open Scope list_scope.

(** ** JavaScript string helpers *)

Module JsString.

(** [s.startsWith(pat)] *)
Fixpoint startsWith (s pat : string) {struct pat} : bool :=
  match pat, s with
  | EmptyString, _ => true
  | String _ _, EmptyString => false
  | String a pat', String b s' =>
      if Ascii.eqb a b then startsWith s' pat' else false
  end.

(** [s.includes(pat)]: [pat] occurs somewhere in [s]. *)
Fixpoint includes (s pat : string) : bool :=
  startsWith s pat ||
  match s with
  | EmptyString => false
  | String _ s' => includes s' pat
  end.

Fixpoint drop (n : nat) (s : string) : string :=
  match n, s with
  | O, _ => s
  | S _, EmptyString => EmptyString
  | S n', String _ s' => drop n' s'
  end.

(** [s.endsWith(suf)] *)
Definition endsWith (s suf : string) : bool :=
  (String.length suf <=? String.length s)%nat &&
  String.eqb (drop (String.length s - String.length suf) s) suf.

(** [s.replace(pat, '')]: the leftmost occurrence of [pat] is removed. *)
Fixpoint replace_with_empty (s pat : string) : string :=
  if startsWith s pat then drop (String.length pat) s
  else match s with
       | EmptyString => EmptyString
       | String c s' => String c (replace_with_empty s' pat)
       end.

(** JavaScript truthiness of a string. *)
Definition truthy (s : string) : bool :=
  match s with EmptyString => false | String _ _ => true end.

End JsString.
Import JsString.

(** ** Data model *)

(** One entry of the summariser's [symbols] array, after [responseSchema]
    has accepted it.  The [metadata] column holds its JSON text; the model
    stores the entry itself. *)
Record item := Item {
  symbolName : string;
  line : Z;
  description : string
}.

(** An embedding, as the array of numbers the embedder returns. *)
Definition Vec : Type := list Q.

(** A row of [symbols].  The table declares no primary key, so SQLite gives
    every row an implicit [rowid] next to the four declared columns. *)
Record symbol_row := SymbolRow {
  rowid : Z;
  filename : string;
  hash : string;
  metadata : item;
  embedding_id : Z
}.

(** The database: the [embeddings] virtual table, keyed by its rowid, and
    the [symbols] table in rowid order.  A table that was not created yet
    is represented as an empty one. *)
Record DB := MkDB {
  embeddings : gmap Z Vec;
  symbols : list symbol_row
}.

#[global] Instance item_eq_dec : EqDecision item.
Proof. solve_decision. Defined.
#[global] Instance symbol_row_eq_dec : EqDecision symbol_row.
Proof. solve_decision. Defined.

(** ** The SQL statements that change the database *)

Inductive stmt :=
  | CreateEmbeddings
      (* create virtual table if not exists embeddings using vss0(a(1536)) *)
  | CreateSymbols
      (* create table if not exists symbols (...) *)
  | DeleteEmbeddings (file : string)
      (* DELETE FROM embeddings WHERE rowid IN
           (SELECT rowid FROM symbols WHERE filename = ?) *)
  | DeleteSymbols (file : string)
      (* DELETE FROM symbols WHERE filename = ? *)
  | InsertEmbedding (id : Z) (a : Vec)
      (* INSERT INTO embeddings(rowid, a) VALUES(?, ?) *)
  | InsertSymbol (id : Z) (file h : string) (it : item).
      (* INSERT INTO symbols(embedding_id, filename, hash, metadata)
           VALUES(?, ?, ?, ?) *)

(** [SELECT rowid FROM symbols WHERE filename = ?]: the implicit rowids of
    the file's rows (not their [embedding_id]). *)
Definition select_rowid_where_filename (file : string)
    (syms : list symbol_row) : list Z :=
  rowid <$> filter (λ r, filename r = file) syms.

(** The rowid SQLite gives to the next inserted row: one more than the
    largest one in use, 1 in an empty table. *)
Definition next_rowid (syms : list symbol_row) : Z :=
  1 + foldr (λ r m, Z.max (rowid r) m) 0 syms.

(** Effect of one statement; [None] when the statement throws.  Only an
    insert into [embeddings] under a rowid that is taken does (rowids are
    unique); the embedder is taken to return vectors of the dimension of
    the column.  The creations are [if not exists]: on this representation
    they change nothing. *)
Definition run (s : stmt) (d : DB) : option DB :=
  match s with
  | CreateEmbeddings | CreateSymbols => Some d
  | DeleteEmbeddings file =>
      Some (MkDB (foldr delete (embeddings d)
                    (select_rowid_where_filename file (symbols d)))
                 (symbols d))
  | DeleteSymbols file =>
      Some (MkDB (embeddings d) (filter (λ r, filename r ≠ file) (symbols d)))
  | InsertEmbedding id a =>
      match embeddings d !! id with
      | Some _ => None
      | None => Some (MkDB (<[id:=a]> (embeddings d)) (symbols d))
      end
  | InsertSymbol id file h it =>
      Some (MkDB (embeddings d)
                 (symbols d ++ [SymbolRow (next_rowid (symbols d)) file h it id]))
  end.

(** [select * from symbols where hash = ? limit 1], plucked: the first
    column ([filename]) of the first matching row. *)
Definition pluck_by_hash (h : string) (d : DB) : option string :=
  filename <$> head (filter (λ r, hash r = h) (symbols d)).

(** [select * from symbols where filename = ? limit 1], plucked. *)
Definition pluck_by_filename (file : string) (d : DB) : option string :=
  filename <$> head (filter (λ r, filename r = file) (symbols d)).

(** [!!fileRecord] *)
Definition checkIfFileHashExists (h : string) (d : DB) : bool :=
  match pluck_by_hash h d with
  | Some f => truthy f
  | None => false
  end.

(** Returns the plucked value itself; the caller tests it with [if]. *)
Definition checkIfFileNameIsKnown (file : string) (d : DB) : option string :=
  pluck_by_filename file d.

(** [if (v)] on a plucked value: a missing row gives [undefined]. *)
Definition truthy_opt (v : option string) : bool :=
  match v with
  | Some f => truthy f
  | None => false
  end.

(** ** The candidate filter *)

Definition isSourceFile (filename : string) : bool :=
  if includes filename "test" then false
  else if includes filename "translation" then false
  else if includes filename "mock" then false
  else if includes filename "types" then false
  else if includes filename "constants" then false
  else if includes filename "stories" then false
  else if includes filename "style" then false
  else if includes filename "storybook" then false
  else if includes filename "gen.ts" then false
  else endsWith filename ".ts" || endsWith filename ".tsx"
       || endsWith filename ".jsx" || endsWith filename ".js".

(** ** Environment *)

(** What the code obtains from outside the process during one run.  [None]
    stands for a rejected promise.  [walk_rejects] tells whether the
    directory walk rejects ([fs.readdir] or [fs.stat] failed somewhere) and
    [traverseFiles] is the list it returns when it does not; [read_rejects]
    tells whether [sha1] or [readFile] rejects on a file, [sha1] and
    [readFile] are their values when they do not.  [generateMetadata]
    covers the completion call, [JSON.parse] and the schema check; within
    one run a service answers the same text alike.  [distance] is the
    metric of the vss0 index. *)
Record Env := MkEnv {
  Date_now : Z;
  existsSync : string → bool;
  path_join : string → string → string;
  walk_rejects : string → bool;
  traverseFiles : string → list string;
  read_rejects : string → bool;
  sha1 : string → string;
  readFile : string → string;
  generateMetadata : string → option (list item);
  generateEmbedding : string → option Vec;
  distance : Vec → Vec → Q
}.

Definition checkIfFileExistsInTheFilesystem (E : Env)
    (directoryPath filename : string) : bool :=
  existsSync E (path_join E directoryPath filename).

(** ** State, exceptions and the journal *)

(** What [buildIndex] works on: the database, the journal of the write
    statements that were executed, and its local counter [i]. *)
Record world := MkWorld {
  db : DB;
  log : list stmt;
  var_i : Z
}.

Inductive error :=
  | InvalidPath          (* 'invalid path to security_solution plugin' *)
  | FsError              (* the walk, sha1 or readFile rejected *)
  | MetadataError        (* generateMetadata rejected *)
  | EmbeddingError       (* generateEmbedding rejected *)
  | SqlError (s : stmt). (* the statement threw *)

Inductive result (A : Type) : Type :=
  | Ok (a : A)
  | Thrown (e : error).
Arguments Ok {A} a.
Arguments Thrown {A} e.

(** A computation may change the world and then return or throw; what it
    changed before throwing stays changed. *)
Definition M (A : Type) : Type := world → result A * world.

Definition ret {A} (a : A) : M A := λ w, (Ok a, w).
Definition throw {A} (e : error) : M A := λ w, (Thrown e, w).
Definition bind {A B} (m : M A) (k : A → M B) : M B :=
  λ w, match m w with
       | (Ok a, w') => k a w'
       | (Thrown e, w') => (Thrown e, w')
       end.
Definition try_catch {A} (m : M A) (handler : error → M A) : M A :=
  λ w, match m w with
       | (Ok a, w') => (Ok a, w')
       | (Thrown e, w') => handler e w'
       end.

#[global] Instance M_ret : MRet M := @ret.
#[global] Instance M_bind : MBind M := λ A B k m, bind m k.

(** Run a statement: journalled when it succeeds, thrown when it fails. *)
Definition sql (s : stmt) : M unit :=
  λ w, match run s (db w) with
       | Some d => (Ok tt, MkWorld d (log w ++ [s]) (var_i w))
       | None => (Thrown (SqlError s), w)
       end.

(** A read-only query. *)
Definition query {A} (q : DB → A) : M A := λ w, (Ok (q (db w)), w).

(** Await an oracle. *)
Definition await {A} (e : error) (r : option A) : M A :=
  match r with
  | Some a => ret a
  | None => throw e
  end.

Definition set_i (v : Z) : M unit := λ w, (Ok tt, MkWorld (db w) (log w) v).
Definition get_i : M Z := λ w, (Ok (var_i w), w).

(** Await a call into the file system that returns nothing of interest
    here, or rejects. *)
Definition fs_call (rejects : bool) : M unit :=
  if rejects then throw FsError else ret tt.

(** [for (const x of l) body] *)
Fixpoint for_of {A} (l : list A) (body : A → M unit) : M unit :=
  match l with
  | [] => ret tt
  | x :: l' => body x ;; for_of l' body
  end.

(** ** buildIndex *)

Section BuildIndex.

Variable E : Env.
Variable directoryPath : string.

(** The text that is embedded for a unit. *)
Definition unit_text (it : item) : string :=
  symbolName it +:+ " " +:+ description it.

(** Body of the loop over [metadata.symbols]. *)
Definition indexItem (relativeFile hash : string) (it : item) : M unit :=
  if includes (symbolName it) "export" then ret tt
  else if includes (symbolName it) "import" then ret tt
  else if includes (symbolName it) "interface" then ret tt
  else
    embedding ← await EmbeddingError
      (generateEmbedding E (unit_text it));
    i ← get_i;
    set_i (i + 1);;
    i ← get_i;
    sql (InsertEmbedding i embedding);;
    sql (InsertSymbol i relativeFile hash it).

(** How the body of the loop over the source files ended: with
    ['already known, skipping'], at the end of the [try] block, or in the
    [catch] block. *)
Inductive verdict :=
  | AlreadyKnown
  | Completed
  | Caught (e : error).

(** Body of the loop over [sourceFiles], from the point where the digest
    and the text of the file were read. *)
Definition indexFile (file : string) : M verdict :=
  let hash := sha1 E file in
  let code := readFile E file in
  let relativeFile := replace_with_empty file directoryPath in
  known ← query (checkIfFileHashExists hash);
  if (known : bool) then ret AlreadyKnown
  else
    try_catch
      (knownFile ← query (checkIfFileNameIsKnown relativeFile);
       metadata ← await MetadataError (generateMetadata E code);
       (if truthy_opt knownFile
        then sql (DeleteEmbeddings relativeFile)
        else ret tt);;
       for_of metadata (indexItem relativeFile hash);;
       ret Completed)
      (λ e, ret (Caught e)).

(** Body of the loop over [knownSymbols]. *)
Definition pruneSymbol (knownSymbol : symbol_row) : M unit :=
  if checkIfFileExistsInTheFilesystem E directoryPath (filename knownSymbol)
  then ret tt
  else
    sql (DeleteEmbeddings (filename knownSymbol));;
    sql (DeleteSymbols (filename knownSymbol)).

(** The loop over the source files, keeping each file's verdict.  The two
    reads at the head of the body are outside the [try]: when one rejects,
    the loop and [buildIndex] end there. *)
Fixpoint indexFiles (sourceFiles : list string) : M (list verdict) :=
  match sourceFiles with
  | [] => ret []
  | file :: rest =>
      fs_call (read_rejects E file);;
      v ← indexFile file;
      vs ← indexFiles rest;
      ret (v :: vs)
  end.

(** [files.filter(isSourceFile)] *)
Definition sourceFiles : list string :=
  filter (λ f, isSourceFile f = true) (traverseFiles E directoryPath).

Definition buildIndex : M (list verdict) :=
  if negb (includes directoryPath "x-pack/plugins/security_solution")
  then throw InvalidPath
  else
    sql CreateEmbeddings;;
    sql CreateSymbols;;
    knownSymbols ← query symbols;
    for_of knownSymbols pruneSymbol;;
    fs_call (walk_rejects E directoryPath);;
    set_i (Date_now E);;
    indexFiles sourceFiles.

End BuildIndex.

(** A run of [buildIndex] on a database.  The journal starts empty; [i]
    has no value before [let i = Date.now()], the 0 is never read.  The
    read of [vss_version()] and the console output are left out. *)
Definition synchronize (E : Env) (directoryPath : string) (d : DB)
    : result (list verdict) * world :=
  buildIndex E directoryPath (MkWorld d [] 0).

(** ** runQuery *)

(** A row of the inner select: [rowid, distance]. *)
Record hit := Hit {
  hit_rowid : Z;
  hit_distance : Q
}.

(** A row of the result: [e.*, f.filename, f.metadata]. *)
Record result_row := ResultRow {
  res_rowid : Z;
  res_distance : Q;
  res_filename : string;
  res_metadata : item
}.

#[global] Instance Qle_dec : RelDecision Qle :=
  λ x y, decide (Qnum x * Z.pos (Qden y) ≤ Qnum y * Z.pos (Qden x))%Z.

(** [order by key ASC] *)
Definition ascending {A} (key : A → Q) : relation A :=
  λ x y, Qle (key x) (key y).

#[global] Instance ascending_dec {A} (key : A → Q) : RelDecision (ascending key) :=
  λ x y, decide (Qle (key x) (key y)).

Definition order_by {A} (key : A → Q) (l : list A) : list A :=
  merge_sort (ascending key) l.

(** The [n] entries nearest to the query, nearest first.  Which of two
    entries at the same distance comes first is not what the index does;
    no statement below depends on it. *)
Definition nearest (E : Env) (q : Vec) (n : nat) (emb : gmap Z Vec)
    : list hit :=
  take n (order_by hit_distance
            ((λ e, Hit e.1 (distance E e.2 q)) <$> map_to_list emb)).

(** [SELECT rowid, distance FROM embeddings WHERE vss_search(a, ?) LIMIT n].
    On an empty table the search of the vss0 index fails and the process
    ends: there is no result. *)
Definition vss_search (E : Env) (q : Vec) (n : nat) (emb : gmap Z Vec)
    : option (list hit) :=
  if decide (size emb = 0%nat) then None else Some (nearest E q n emb).

(** [e JOIN symbols f ON f.embedding_id = e.rowid] *)
Definition join_symbols (hits : list hit) (syms : list symbol_row)
    : list result_row :=
  e ← hits;
  f ← filter (λ f, embedding_id f = hit_rowid e) syms;
  [ResultRow (hit_rowid e) (hit_distance e) (filename f) (metadata f)].

Definition LIMIT : nat := 20.

(** [None]: there is no result, because the embedder rejected or because
    the search failed. *)
Definition runQuery (E : Env) (query : string) (d : DB)
    : option (list result_row) :=
  queryAsEmbedding ← generateEmbedding E query;
  e ← vss_search E queryAsEmbedding LIMIT (embeddings d);
  Some (order_by res_distance (join_symbols e (symbols d))).


(** ** Vocabulary of the statements *)

(** [pat] occurs in [s]. *)
Definition substring (pat s : string) : Prop :=
  ∃ a b, s = a +:+ pat +:+ b.

(** The three tests of the loop over the units, taken together. *)
Definition noise (it : item) : bool :=
  includes (symbolName it) "export"
  || includes (symbolName it) "import"
  || includes (symbolName it) "interface".

(** A name that holds one of the three keywords of the filter. *)
Definition keyword_in (name : string) : Prop :=
  substring "export" name ∨ substring "import" name
  ∨ substring "interface" name.

(** Every Unit Record names its file. *)
Definition named (d : DB) : Prop :=
  Forall (λ r, filename r ≠ "") (symbols d).

(** The counter is above every rowid in use in [embeddings]. *)
Definition fresh_above (w : world) : Prop :=
  ∀ id, var_i w < id → embeddings (db w) !! id = None.

(** The two tables are in lockstep: the [embedding_id] of every symbols row
    is the rowid of an embeddings row, and every embeddings row is the one
    of some symbols row. *)
Definition consistent (d : DB) : Prop :=
  (∀ row, row ∈ symbols d → is_Some (embeddings d !! embedding_id row))
  ∧ (∀ id, is_Some (embeddings d !! id) →
           ∃ row, row ∈ symbols d ∧ embedding_id row = id).

(** The row an insert creates. *)
Definition row_of (s : stmt) (row : symbol_row) : Prop :=
  match s with
  | InsertSymbol id f h it =>
      filename row = f ∧ hash row = h ∧ metadata row = it
      ∧ embedding_id row = id
  | _ => False
  end.

(** The statements of the pruning pass and of the creations before it. *)
Definition is_prune (s : stmt) : Prop :=
  match s with
  | InsertEmbedding _ _ | InsertSymbol _ _ _ _ => False
  | _ => True
  end.

(** The statements of the update pass. *)
Definition is_update (s : stmt) : Prop :=
  match s with
  | DeleteEmbeddings _ | InsertEmbedding _ _ | InsertSymbol _ _ _ _ => True
  | _ => False
  end.

(** [m] appends a first phase of [Q1] statements and then a second phase
    of [Q2] statements. *)
Definition phased {A} (Q1 Q2 : stmt → Prop) (m : M A) : Prop :=
  ∀ w r w', m w = (r, w') →
    ∃ l1 l2, log w' = log w ++ l1 ++ l2 ∧ Forall Q1 l1 ∧ Forall Q2 l2.

(** Replaying a journal on a database. *)
Fixpoint replay (l : list stmt) (d : DB) : option DB :=
  match l with
  | [] => Some d
  | s :: l' => d' ← run s d; replay l' d'
  end.

(** [m] only appends to the journal, what it appends satisfies [Q], and
    the appended statements account for the change of the database. *)
Definition journalled {A} (Q : stmt → Prop) (m : M A) : Prop :=
  ∀ w r w', m w = (r, w') →
    ∃ extra, log w' = log w ++ extra ∧ Forall Q extra
             ∧ replay extra (db w) = Some (db w').

(** What the loop body may run for one source file. *)
Definition file_stmt (E : Env) (directoryPath file : string) (s : stmt) : Prop :=
  match s with
  | DeleteEmbeddings f => f = replace_with_empty file directoryPath
  | InsertEmbedding _ a =>
      ∃ it, noise it = false ∧ generateEmbedding E (unit_text it) = Some a
  | InsertSymbol _ f h it =>
      f = replace_with_empty file directoryPath ∧ h = sha1 E file
      ∧ noise it = false
  | _ => False
  end.

(** What a run may execute: the two creations, the deletions of the
    pruning pass, and per source file what [file_stmt] allows. *)
Definition run_stmt (E : Env) (directoryPath : string) (s : stmt) : Prop :=
  match s with
  | CreateEmbeddings | CreateSymbols | DeleteEmbeddings _ | DeleteSymbols _ =>
      True
  | _ => ∃ file, file ∈ sourceFiles E directoryPath
                 ∧ file_stmt E directoryPath file s
  end.

(** ** Concrete stores and environments *)

Module Demo.

Definition root : string := "/kibana/x-pack/plugins/security_solution".

Definition unitA : item := Item "useAlerts" 10 "hook that loads alerts".
Definition unitB : item := Item "AlertsTable" 42 "table of alerts".
Definition unitC : item := Item "formatAlert" 77 "formats one alert".
Definition unitExport : item := Item "export" 1 "export statement".
Definition unitExportItems : item := Item "exportItems" 3 "exports items".
Definition unitIface : item := Item "MyInterfaceImpl" 5 "implements it".

(** One-dimensional vectors under the absolute difference. *)
Definition metric (a b : Vec) : Q := Qabs (hd 0%Q a - hd 0%Q b).

(** An environment whose directory walk returns [files], in which every
    file has the digest [digest] and the summary [summary]. *)
Definition env (files : list string) (present : string → bool)
    (digest : string) (summary : option (list item))
    (embed : string → option Vec) : Env :=
  MkEnv 1700000005000 present (λ a b, a +:+ b) (λ _, false) (λ _, files)
        (λ _, false) (λ _, digest) (λ _, "source text") (λ _, summary)
        embed metric.

Definition embed_all (_ : string) : option Vec := Some [1 # 4]%Q.

(** The embedder rejects the text of [unitB]. *)
Definition embed_but_B (text : string) : option Vec :=
  if String.eqb text (unit_text unitB) then None else Some [1 # 4]%Q.

(** A store that holds one unit of [/a.ts] under the fingerprint [H1]. *)
Definition store_a : DB :=
  MkDB {[ 1700000000001 := [1 # 2]%Q ]}
       [SymbolRow 1 "/a.ts" "H1" unitA 1700000000001].

(** A store that holds one unit of [/a.ts] and one of [/gone.ts]. *)
Definition store_two : DB :=
  MkDB {[ 1700000000001 := [1 # 2]%Q; 1700000000002 := [1 # 3]%Q ]}
       [SymbolRow 1 "/a.ts" "H1" unitA 1700000000001;
        SymbolRow 2 "/gone.ts" "G1" unitB 1700000000002].

Definition empty_store : DB := MkDB ∅ [].

(** [/a.ts] is gone and the tree is empty. *)
Definition env_removed : Env :=
  env [] (λ _, false) "H1" None embed_all.

(** [/a.ts] is present and unchanged, [/gone.ts] was removed. *)
Definition env_one_removed : Env :=
  env [root +:+ "/a.ts"] (λ p, String.eqb p (root +:+ "/a.ts")) "H1"
      (Some [unitA]) embed_all.

(** [/a.ts] is present with new content, fingerprint [H2]. *)
Definition env_changed : Env :=
  env [root +:+ "/a.ts"] (λ _, true) "H2" (Some [unitB; unitC]) embed_all.

(** [/a.ts] is new; the embedder fails on its second unit. *)
Definition env_embed_fails : Env :=
  env [root +:+ "/a.ts"] (λ _, true) "H2" (Some [unitA; unitB; unitC])
      embed_but_B.

(** [/a.ts] is new; the summariser fails on it. *)
Definition env_summary_fails : Env :=
  env [root +:+ "/a.ts"] (λ _, true) "H2" None embed_all.

(** [/a.ts] is new; its summary has keyword-like names. *)
Definition env_keywords : Env :=
  env [root +:+ "/a.ts"] (λ _, true) "H2"
      (Some [unitExport; unitExportItems; unitIface; unitA]) embed_all.

(** Three entries at distances 0.1, 0.5 and 0.9 from the query [[0]]. *)
Definition store_three : DB :=
  MkDB {[ 11 := [9 # 10]%Q; 12 := [1 # 10]%Q; 13 := [1 # 2]%Q ]}
       [SymbolRow 1 "/a.ts" "H1" unitA 11;
        SymbolRow 2 "/a.ts" "H1" unitB 12;
        SymbolRow 3 "/b.ts" "H3" unitC 13].

Definition env_query : Env :=
  env [] (λ _, true) "H1" None (λ _, Some [0 # 1]%Q).

End Demo.

(** ** The directory walk *)

Module Walk.

(** What the walk finds at a path: a regular file, a directory with its
    entries in the order of [fs.readdir], something else (a socket, a
    device), an entry on which [fs.stat] rejects (a link that dangles), or
    a directory on which [fs.readdir] rejects (no permission).  The tree is
    finite: links that loop are outside the model. *)
#[local] Unset Elimination Schemes.
Inductive node :=
  | File
  | Directory (entries : list (string * node))
  | Special
  | Broken
  | Locked.
#[local] Set Elimination Schemes.

(** [traverseFiles(directory)] when [directory] holds [n]; [join] is
    [path.join].  [None] is a rejected promise: [fs.readdir] rejects on
    what is not a directory that can be read, [fs.stat] on a broken entry,
    and a rejection below rejects the whole walk. *)
Fixpoint walk (join : string → string → string) (directory : string)
    (n : node) {struct n} : option (list string) :=
  match n with
  | Directory entries =>
      (fix loop (files : list (string * node)) : option (list string) :=
         match files with
         | [] => Some []
         | (file, child) :: rest =>
             if includes file "node_modules" then loop rest
             else if includes file ".git" then loop rest
             else
               let filePath := join directory file in
               match child with
               | File =>
                   match loop rest with
                   | Some result => Some (filePath :: result)
                   | None => None
                   end
               | Directory _ | Locked =>
                   match walk join filePath child with
                   | Some below =>
                       match loop rest with
                       | Some result => Some (below ++ result)
                       | None => None
                       end
                   | None => None
                   end
               | Special => loop rest
               | Broken => None
               end
         end) entries
  | _ => None
  end.

(** The call [traverseFiles(directoryPath)] of [buildIndex]. *)
Definition traverseFiles (join : string → string → string)
    (directory : string) (n : node) : option (list string) :=
  walk join directory n.

(** The names the walk steps over. *)
Definition skipped (name : string) : Prop :=
  substring "node_modules" name ∨ substring ".git" name.

(** [file_at n chain]: following the names of [chain] from the directory
    [n] ends at a regular file. *)
Inductive file_at : node → list string → Prop :=
  | file_here entries name :
      (name, File) ∈ entries → file_at (Directory entries) [name]
  | file_below entries name sub chain :
      (name, Directory sub) ∈ entries → file_at (Directory sub) chain →
      file_at (Directory entries) (name :: chain).

(** [rejects_at n chain]: following the names of [chain] from the
    directory [n] ends at an entry on which [fs.stat] or [fs.readdir]
    rejects. *)
Inductive rejects_at : node → list string → Prop :=
  | rejects_here entries name child :
      (name, child) ∈ entries → child = Broken ∨ child = Locked →
      rejects_at (Directory entries) [name]
  | rejects_below entries name sub chain :
      (name, Directory sub) ∈ entries → rejects_at (Directory sub) chain →
      rejects_at (Directory entries) (name :: chain).

End Walk.

(** ** Invariants of the world and of the run *)

(** [m] keeps the invariant [I] of the world, also when it throws. *)
Definition preserves {A} (I : world → Prop) (m : M A) : Prop :=
  ∀ w r w', I w → m w = (r, w') → I w'.

(** No two Unit Records share a vectorRef, and the counter [i] is not
    below any of them. *)
Definition ids_in_order (w : world) : Prop :=
  NoDup (embedding_id <$> symbols (db w))
  ∧ Forall (λ row, embedding_id row ≤ var_i w) (symbols (db w)).

(** The words [isSourceFile] looks for. *)
Definition filter_words : list string :=
  ["test"; "translation"; "mock"; "types"; "constants"; "stories";
   "style"; "storybook"; "gen.ts"].

(** The suffixes [isSourceFile] accepts. *)
Definition source_suffixes : list string := [".ts"; ".tsx"; ".jsx"; ".js"].

(** The file of a row is there, as the pruning pass tests it. *)
Definition present (E : Env) (directoryPath : string) (row : symbol_row)
    : Prop :=
  checkIfFileExistsInTheFilesystem E directoryPath (filename row) = true.

#[global] Instance present_dec E directoryPath row :
  Decision (present E directoryPath row).
Proof. unfold present. apply _. Defined.

(** The pruning pass of [buildIndex]: the loop over the snapshot of symbols. *)
Definition pruningPass (E : Env) (directoryPath : string) : M unit :=
  knownSymbols ← query symbols;
  for_of knownSymbols (pruneSymbol E directoryPath).

(** The names of the rows of [rows] whose file is gone. *)
Definition gone_names (E : Env) (directoryPath : string)
    (rows : list symbol_row) : list string :=
  filename <$> filter (λ x, ¬ present E directoryPath x) rows.

(** The world in which the loop over the source files of a run on [d]
    starts: the creations and the pruning pass are done and the counter is
    at [Date.now()]. *)
Definition afterPruning (E : Env) (directoryPath : string) (d : DB) : world :=
  let pruned :=
    (pruningPass E directoryPath
       (MkWorld d [CreateEmbeddings; CreateSymbols] 0)).2 in
  MkWorld (db pruned) (log pruned) (Date_now E).

(** The first unit of a summary that passes the name filter. *)
Definition first_unit (units : list item) : option item :=
  head (filter (λ x, noise x = false) units).

(** The work on [file] fails before any of its units is stored: the
    summariser rejects (or its answer is malformed), or the embedder
    rejects the first unit that passes the name filter. *)
Definition fails_early (E : Env) (file : string) : bool :=
  match generateMetadata E (readFile E file) with
  | None => true
  | Some units =>
      match first_unit units with
      | Some it =>
          match generateEmbedding E (unit_text it) with
          | None => true
          | Some _ => false
          end
      | None => false
      end
  end.

(** An insert of a Unit Record under the fingerprint [H]. *)
Definition records (H : string) (s : stmt) : Prop :=
  match s with
  | InsertSymbol _ _ h _ => h = H
  | _ => False
  end.

(** No Unit Record carries [H] and no insert of the journal did. *)
Definition unrecorded (H : string) (w : world) : Prop :=
  Forall (λ row, hash row ≠ H) (symbols (db w))
  ∧ Forall (λ s, ¬ records H s) (log w).

(** ** More concrete cases *)

Module Cases.

(** [/index.ts] is new and its summary holds only the keyword "export". *)
Definition env_only_noise : Env :=
  Demo.env [Demo.root +:+ "/index.ts"] (λ _, true) "H9"
           (Some [Demo.unitExport]) Demo.embed_all.

(** The checkout lies under [/home/tester]. *)
Definition tester_root : string :=
  "/home/tester/kibana/x-pack/plugins/security_solution".

Definition env_tester : Env :=
  Demo.env [tester_root +:+ "/a.ts"] (λ _, true) "H1"
           (Some [Demo.unitA]) Demo.embed_all.

(** A small tree: a repository with its [.git] directory. *)
Definition repo : Walk.node :=
  Walk.Directory
    [(".git", Walk.Directory [("config", Walk.File)]);
     ("src", Walk.Directory [("a.ts", Walk.File)])].

(** [path.join] on a normalised directory and a plain name. *)
Definition join (directory file : string) : string :=
  directory +:+ "/" +:+ file.

(** Twenty-one units, the k-th with the vector [[k/100]]. *)
Definition many : list Z := seqZ 1 21.

Definition store_many : DB :=
  MkDB (list_to_map ((λ k, (k, [Qmake k 100])) <$> many))
       ((λ k, SymbolRow k "/a.ts" "H1" Demo.unitA k) <$> many).

(** Two new files of one fingerprint: the summariser fails on [/a.ts], and
    on [/b.ts] the embedder fails on the first unit that passes the name
    filter. *)
Definition env_twins : Env :=
  MkEnv 1700000005000 (λ _, true) (λ a b, a +:+ b) (λ _, false)
        (λ _, [Demo.root +:+ "/a.ts"; Demo.root +:+ "/b.ts"])
        (λ _, false) (λ _, "H2")
        (λ f, if String.eqb f (Demo.root +:+ "/a.ts")
              then "text of a" else "text of b")
        (λ code, if String.eqb code "text of a" then None
                 else Some [Demo.unitExport; Demo.unitB; Demo.unitC])
        Demo.embed_but_B Demo.metric.

(** Two new files of one fingerprint: the summariser fails on [/a.ts] and
    [/b.ts] is stored. *)
Definition env_twin_stored : Env :=
  MkEnv 1700000005000 (λ _, true) (λ a b, a +:+ b) (λ _, false)
        (λ _, [Demo.root +:+ "/a.ts"; Demo.root +:+ "/b.ts"])
        (λ _, false) (λ _, "H2")
        (λ f, if String.eqb f (Demo.root +:+ "/a.ts")
              then "text of a" else "text of b")
        (λ code, if String.eqb code "text of a" then None
                 else Some [Demo.unitA])
        Demo.embed_all Demo.metric.

(** Two new files; [sha1] or [readFile] rejects on the second. *)
Definition env_unreadable : Env :=
  MkEnv 1700000005000 (λ _, true) (λ a b, a +:+ b) (λ _, false)
        (λ _, [Demo.root +:+ "/a.ts"; Demo.root +:+ "/b.ts"])
        (λ f, String.eqb f (Demo.root +:+ "/b.ts")) (λ _, "H2")
        (λ _, "source text") (λ _, Some [Demo.unitA])
        Demo.embed_all Demo.metric.

(** A repository with a link that dangles inside [node_modules] and one
    inside [src]. *)
Definition repo_broken : Walk.node :=
  Walk.Directory
    [("node_modules", Walk.Directory [("gone", Walk.Broken)]);
     ("src", Walk.Directory [("a.ts", Walk.File); ("link", Walk.Broken)])].

End Cases.

(** ** Strings *)

Lemma append_nil s : "" +:+ s = s.
Proof. reflexivity. Qed.

Lemma append_cons c s t : String c s +:+ t = String c (s +:+ t).
Proof. reflexivity. Qed.

Lemma startsWith_spec s pat :
  startsWith s pat = true ↔ ∃ b, s = pat +:+ b.
Proof.
  revert s. induction pat as [|a pat IH]; intros s; simpl.
  - split; [intros _; exists s; reflexivity | reflexivity].
  - destruct s as [|b s].
    + split; [done | intros [? ?]; discriminate].
    + destruct (Ascii.eqb a b) eqn:Hab.
      * apply Ascii.eqb_eq in Hab as ->. rewrite IH.
        split; intros [t Ht]; exists t; rewrite append_cons in *; congruence.
      * apply Ascii.eqb_neq in Hab.
        split; [done | intros [t Ht]; rewrite append_cons in Ht; congruence].
Qed.

Lemma includes_spec s pat :
  includes s pat = true ↔ substring pat s.
Proof.
  unfold substring. induction s as [|c s IH]; simpl.
  - rewrite orb_false_r, startsWith_spec. split.
    + intros [b Hb]. by exists "", b.
    + intros (a & b & Hab). destruct a; [by exists b | discriminate].
  - rewrite orb_true_iff, startsWith_spec, IH. split.
    + intros [[b Hb] | (a & b & Hab)].
      * by exists "", b.
      * exists (String c a), b. rewrite append_cons. by rewrite Hab.
    + intros (a & b & Hab). destruct a as [|c' a].
      * left. by exists b.
      * right. exists a, b. rewrite append_cons in Hab. congruence.
Qed.

Lemma includes_false s pat :
  includes s pat = false ↔ ¬ substring pat s.
Proof.
  rewrite <- includes_spec. by destruct (includes s pat).
Qed.

Lemma includes_refl s : includes s s = true.
Proof.
  apply includes_spec. exists "", "". rewrite append_nil.
  induction s as [|c s IH]; [done | rewrite append_cons; congruence].
Qed.

Lemma noise_spec it : noise it = true ↔ keyword_in (symbolName it).
Proof.
  unfold noise, keyword_in. rewrite !orb_true_iff, !includes_spec. tauto.
Qed.

(** ** The journal discipline *)

Lemma replay_app l1 l2 d :
  replay (l1 ++ l2) d = replay l1 d ≫= replay l2.
Proof.
  revert d. induction l1 as [|s l1 IH]; intros d; simpl; [done|].
  destruct (run s d) as [d'|]; simpl; [apply IH | done].
Qed.

Lemma journalled_silent {A} Q (m : M A) :
  (∀ w r w', m w = (r, w') → log w' = log w ∧ db w' = db w) →
  journalled Q m.
Proof.
  intros Hm w r w' Hrun. destruct (Hm _ _ _ Hrun) as [Hlog Hdb].
  exists []. rewrite app_nil_r, Hdb. by repeat split.
Qed.

Lemma journalled_ret {A} Q (a : A) : journalled Q (ret a).
Proof. apply journalled_silent. intros w r w' [= <- <-]. done. Qed.

Lemma journalled_mret {A} Q (a : A) : journalled Q (mret a : M A).
Proof. apply journalled_ret. Qed.

Lemma journalled_throw {A} Q e : journalled Q (throw e : M A).
Proof. apply journalled_silent. intros w r w' [= <- <-]. done. Qed.

Lemma journalled_query {A} Q (q : DB → A) : journalled Q (query q).
Proof. apply journalled_silent. intros w r w' [= <- <-]. done. Qed.

Lemma journalled_await {A} Q e (o : option A) : journalled Q (await e o).
Proof. destruct o; [apply journalled_ret | apply journalled_throw]. Qed.

Lemma journalled_fs_call Q rejects : journalled Q (fs_call rejects).
Proof. destruct rejects; [apply journalled_throw | apply journalled_ret]. Qed.

Lemma journalled_get_i Q : journalled Q get_i.
Proof. apply journalled_silent. intros w r w' [= <- <-]. done. Qed.

Lemma journalled_set_i Q v : journalled Q (set_i v).
Proof. apply journalled_silent. intros w r w' [= <- <-]. done. Qed.

Lemma journalled_sql (Q : stmt → Prop) s : Q s → journalled Q (sql s).
Proof.
  intros HQ w r w' Hrun. unfold sql in Hrun.
  destruct (run s (db w)) as [d|] eqn:Hs; injection Hrun as <- <-.
  - exists [s]. simpl. rewrite Hs. repeat split. by constructor.
  - exists []. rewrite app_nil_r. by repeat split.
Qed.

Lemma journalled_bind {A B} Q (m : M A) (k : A → M B) :
  journalled Q m → (∀ a, journalled Q (k a)) → journalled Q (m ≫= k).
Proof.
  intros Hm Hk w r w' Hrun. unfold mbind, M_bind, bind in Hrun.
  destruct (m w) as [[a|e] w1] eqn:Hmw.
  - destruct (Hm _ _ _ Hmw) as (x1 & Hl1 & HQ1 & Hr1).
    destruct (Hk a _ _ _ Hrun) as (x2 & Hl2 & HQ2 & Hr2).
    exists (x1 ++ x2). rewrite Hl2, Hl1, <- app_assoc, replay_app, Hr1.
    repeat split; [by apply Forall_app | done].
  - injection Hrun as <- <-. eauto.
Qed.

Lemma journalled_bind_ret {A B} Q (a : A) (k : A → M B) :
  journalled Q (k a) → journalled Q (ret a ≫= k).
Proof. intros Hk. exact Hk. Qed.

Lemma journalled_try_catch {A} Q (m : M A) (handler : error → M A) :
  journalled Q m → (∀ e, journalled Q (handler e)) →
  journalled Q (try_catch m handler).
Proof.
  intros Hm Hh w r w' Hrun. unfold try_catch in Hrun.
  destruct (m w) as [[a|e] w1] eqn:Hmw.
  - injection Hrun as <- <-. eauto.
  - destruct (Hm _ _ _ Hmw) as (x1 & Hl1 & HQ1 & Hr1).
    destruct (Hh e _ _ _ Hrun) as (x2 & Hl2 & HQ2 & Hr2).
    exists (x1 ++ x2). rewrite Hl2, Hl1, <- app_assoc, replay_app, Hr1.
    repeat split; [by apply Forall_app | done].
Qed.

Lemma journalled_for_of {A} Q (l : list A) (body : A → M unit) :
  (∀ x, x ∈ l → journalled Q (body x)) → journalled Q (for_of l body).
Proof.
  induction l as [|x l IH]; intros Hbody; simpl.
  - apply journalled_ret.
  - apply journalled_bind.
    + apply Hbody. by left.
    + intros _. apply IH. intros y Hy. apply Hbody. by right.
Qed.

Lemma journalled_weaken {A} (Q Q' : stmt → Prop) (m : M A) :
  (∀ s, Q s → Q' s) → journalled Q m → journalled Q' m.
Proof.
  intros HQ Hm w r w' Hrun. destruct (Hm _ _ _ Hrun) as (x & Hl & HF & Hr).
  exists x. repeat split; [done | by eapply Forall_impl | done].
Qed.

(** *** The loops of [buildIndex] *)

Lemma indexItem_noise E rel h it :
  noise it = true → indexItem E rel h it = ret tt.
Proof.
  unfold noise, indexItem. intros Hn.
  destruct (includes (symbolName it) "export"); [done|].
  destruct (includes (symbolName it) "import"); [done|].
  destruct (includes (symbolName it) "interface"); [done | discriminate].
Qed.

Lemma indexItem_journalled E dir file it :
  journalled (file_stmt E dir file)
    (indexItem E (replace_with_empty file dir) (sha1 E file) it).
Proof.
  destruct (noise it) eqn:Hn.
  { rewrite indexItem_noise by done. apply journalled_ret. }
  unfold indexItem. unfold noise in Hn.
  apply orb_false_iff in Hn as [Hn Hn3]. apply orb_false_iff in Hn as [Hn1 Hn2].
  rewrite Hn1, Hn2, Hn3.
  assert (Hnoise : noise it = false) by (unfold noise; by rewrite Hn1, Hn2, Hn3).
  destruct (generateEmbedding E (unit_text it)) as [a|] eqn:Ha; simpl.
  2: { apply journalled_silent. by intros w r w' [= <- <-]. }
  apply journalled_bind_ret.
  apply journalled_bind; [apply journalled_get_i | intros i].
  apply journalled_bind; [apply journalled_set_i | intros _].
  apply journalled_bind; [apply journalled_get_i | intros i'].
  apply journalled_bind; [|intros _]; apply journalled_sql; simpl; eauto.
Qed.

Lemma indexFile_journalled E dir file :
  journalled (file_stmt E dir file) (indexFile E dir file).
Proof.
  unfold indexFile.
  apply journalled_bind; [apply journalled_query | intros known].
  destruct known; [apply journalled_mret|].
  apply journalled_try_catch; [|intros e; apply journalled_mret].
  apply journalled_bind; [apply journalled_query | intros knownFile].
  apply journalled_bind; [apply journalled_await | intros metadata].
  apply journalled_bind; [|intros _].
  { destruct (truthy_opt knownFile); [by apply journalled_sql | apply journalled_mret]. }
  apply journalled_bind; [|intros _; apply journalled_mret].
  apply journalled_for_of. intros it _. apply indexItem_journalled.
Qed.

Lemma pruneSymbol_journalled E dir knownSymbol :
  journalled (run_stmt E dir) (pruneSymbol E dir knownSymbol).
Proof.
  unfold pruneSymbol.
  destruct (checkIfFileExistsInTheFilesystem _ _ _); [apply journalled_mret|].
  apply journalled_bind; [|intros _]; by apply journalled_sql.
Qed.

Lemma file_stmt_run_stmt E dir file s :
  file ∈ sourceFiles E dir → file_stmt E dir file s → run_stmt E dir s.
Proof. intros Hin Hs. destruct s; simpl in *; eauto. Qed.

Lemma indexFiles_journalled E dir files :
  files ⊆ sourceFiles E dir →
  journalled (run_stmt E dir) (indexFiles E dir files).
Proof.
  induction files as [|file files IH]; intros Hsub; simpl.
  - apply journalled_mret.
  - apply journalled_bind; [apply journalled_fs_call | intros _].
    apply journalled_bind; [|intros v].
    + eapply journalled_weaken; [|apply indexFile_journalled].
      intros s. apply file_stmt_run_stmt. apply Hsub. by left.
    + apply journalled_bind; [|intros vs; apply journalled_mret].
      apply IH. intros f Hf. apply Hsub. by right.
Qed.

Lemma buildIndex_journalled E dir :
  journalled (run_stmt E dir) (buildIndex E dir).
Proof.
  unfold buildIndex.
  destruct (negb _); [apply journalled_throw|].
  apply journalled_bind; [by apply journalled_sql | intros _].
  apply journalled_bind; [by apply journalled_sql | intros _].
  apply journalled_bind; [apply journalled_query | intros knownSymbols].
  apply journalled_bind; [|intros _].
  { apply journalled_for_of. intros x _. apply pruneSymbol_journalled. }
  apply journalled_bind; [apply journalled_fs_call | intros _].
  apply journalled_bind; [apply journalled_set_i | intros _].
  by apply indexFiles_journalled.
Qed.

Lemma for_of_cons {A} (x : A) l body w :
  for_of (x :: l) body w
  = match body x w with
    | (Ok _, w') => for_of l body w'
    | (Thrown e, w') => (Thrown e, w')
    end.
Proof. reflexivity. Qed.

(** *** A run on an accepted root completes *)

Lemma bind_query {A B} (q : DB → A) (k : A → M B) w :
  (query q ≫= k) w = k (q (db w)) w.
Proof. reflexivity. Qed.

Lemma try_catch_returns {A} (m : M A) (handler : error → M A) w :
  (∀ e w0, ∃ v w', handler e w0 = (Ok v, w')) →
  ∃ v w', try_catch m handler w = (Ok v, w').
Proof.
  intros Hh. unfold try_catch.
  destruct (m w) as [[v|e] w1]; [by eexists _, _ | apply Hh].
Qed.

Lemma indexFile_returns E dir file w :
  ∃ v w', indexFile E dir file w = (Ok v, w').
Proof.
  unfold indexFile. rewrite bind_query.
  destruct (checkIfFileHashExists _ _); [by eexists _, _|].
  apply try_catch_returns. intros e w0. by eexists _, _.
Qed.

Lemma indexFiles_returns E dir files w :
  Forall (λ f, read_rejects E f = false) files →
  ∃ vs w', indexFiles E dir files w = (Ok vs, w')
           ∧ length vs = length files.
Proof.
  intros Hread. revert w.
  induction Hread as [|file files Hfile _ IH]; intros w; simpl.
  - by exists [], w.
  - rewrite Hfile. unfold mbind, M_bind, bind. simpl.
    destruct (indexFile_returns E dir file w) as (v & w1 & ->).
    destruct (IH w1) as (vs & w2 & -> & Hlen).
    exists (v :: vs), w2. simpl. by rewrite Hlen.
Qed.

Lemma pruneSymbol_returns E dir knownSymbol w :
  ∃ w', pruneSymbol E dir knownSymbol w = (Ok tt, w').
Proof.
  unfold pruneSymbol.
  destruct (checkIfFileExistsInTheFilesystem _ _ _); by eexists.
Qed.

Lemma for_of_pruneSymbol_returns E dir rows w :
  ∃ w', for_of rows (pruneSymbol E dir) w = (Ok tt, w').
Proof.
  revert w. induction rows as [|x rows IH]; intros w.
  - by exists w.
  - rewrite for_of_cons.
    destruct (pruneSymbol_returns E dir x w) as (w1 & ->). apply IH.
Qed.

(** X17: on a root that passes the guard, when the directory walk returns
    and every source file can be hashed and read, [buildIndex] returns,
    with one verdict for each source file: no failure of the summariser, of
    the embedder or of an insert ends the run. *)
Lemma synchronize_completes E dir d :
  includes dir "x-pack/plugins/security_solution" = true →
  walk_rejects E dir = false →
  Forall (λ f, read_rejects E f = false) (sourceFiles E dir) →
  ∃ vs w, synchronize E dir d = (Ok vs, w)
          ∧ length vs = length (sourceFiles E dir).
Proof.
  intros Hdir Hwalk Hread. unfold synchronize, buildIndex.
  rewrite Hdir, Hwalk. simpl.
  unfold mbind, M_bind, bind, sql, query, set_i. simpl.
  match goal with |- context [for_of ?rows _ ?w] =>
    destruct (for_of_pruneSymbol_returns E dir rows w) as (w1 & ->) end.
  simpl.
  match goal with |- context [indexFiles _ _ ?files ?w] =>
    destruct (indexFiles_returns E dir files w Hread)
      as (vs & w2 & -> & Hlen) end.
  by exists vs, w2.
Qed.

(** *** Pruning comes first *)

Lemma phased_bind {A B} Q1 Q2 (m : M A) (k : A → M B) :
  journalled Q1 m → (∀ a, phased Q1 Q2 (k a)) → phased Q1 Q2 (m ≫= k).
Proof.
  intros Hm Hk w r w' Hrun. unfold mbind, M_bind, bind in Hrun.
  destruct (m w) as [[a|e] w1] eqn:Hmw.
  - destruct (Hm _ _ _ Hmw) as (x1 & Hl1 & HQ1 & _).
    destruct (Hk a _ _ _ Hrun) as (l1 & l2 & Hl & HF1 & HF2).
    exists (x1 ++ l1), l2. rewrite Hl, Hl1, <- !app_assoc.
    repeat split; [by apply Forall_app | done].
  - injection Hrun as <- <-.
    destruct (Hm _ _ _ Hmw) as (x1 & Hl1 & HQ1 & _).
    exists x1, []. by rewrite app_nil_r.
Qed.

Lemma phased_second {A} Q1 Q2 (m : M A) : journalled Q2 m → phased Q1 Q2 m.
Proof.
  intros Hm w r w' Hrun. destruct (Hm _ _ _ Hrun) as (x & Hl & HQ & _).
  by exists [], x.
Qed.

Lemma indexFiles_updates E dir files :
  journalled is_update (indexFiles E dir files).
Proof.
  induction files as [|file files IH]; simpl; [apply journalled_mret|].
  apply journalled_bind; [apply journalled_fs_call | intros _].
  apply journalled_bind; [|intros v].
  - eapply journalled_weaken; [|apply indexFile_journalled].
    by intros [].
  - apply journalled_bind; [done | intros vs; apply journalled_mret].
Qed.

(** X18: the journal of a run splits in two: first creations and deletions
    only, then no creation and no delete on symbols.  So the pruning pass
    is over before the first insert. *)
Lemma pruning_precedes_insertions E dir d r w :
  synchronize E dir d = (r, w) →
  ∃ pruning updates,
    log w = pruning ++ updates
    ∧ Forall is_prune pruning ∧ Forall is_update updates.
Proof.
  intros Hrun.
  assert (Hph : phased is_prune is_update (buildIndex E dir)).
  { unfold buildIndex. destruct (negb _).
    { apply phased_second, journalled_throw. }
    apply phased_bind; [by apply journalled_sql | intros _].
    apply phased_bind; [by apply journalled_sql | intros _].
    apply phased_bind; [apply journalled_query | intros knownSymbols].
    apply phased_bind; [|intros _].
    { apply journalled_for_of. intros x _. unfold pruneSymbol.
      destruct (checkIfFileExistsInTheFilesystem _ _ _);
        [apply journalled_mret|].
      apply journalled_bind; [|intros _]; by apply journalled_sql. }
    apply phased_bind; [apply journalled_fs_call | intros _].
    apply phased_bind; [apply journalled_set_i | intros _].
    apply phased_second, indexFiles_updates. }
  destruct (Hph _ _ _ Hrun) as (l1 & l2 & Hl & H1 & H2).
  simpl in Hl. by exists l1, l2.
Qed.

(** The journal of a run accounts for the database it leaves. *)
Lemma synchronize_journal E dir d r w :
  synchronize E dir d = (r, w) →
  Forall (run_stmt E dir) (log w) ∧ replay (log w) d = Some (db w).
Proof.
  intros Hrun. destruct (buildIndex_journalled E dir _ _ _ Hrun)
    as (extra & Hlog & HQ & Hreplay).
  simpl in Hlog. by rewrite Hlog.
Qed.

(** ** Rows and the journal *)

Lemma run_symbols s d d' row :
  run s d = Some d' → row ∈ symbols d' → row ∈ symbols d ∨ row_of s row.
Proof.
  destruct s; simpl; intros Hrun Hin.
  - injection Hrun as <-. by left.
  - injection Hrun as <-. by left.
  - injection Hrun as <-. by left.
  - injection Hrun as <-. simpl in Hin.
    apply list_elem_of_filter in Hin as [_ Hin]. by left.
  - destruct (embeddings d !! id); [done|]. injection Hrun as <-. by left.
  - injection Hrun as <-. simpl in Hin.
    apply elem_of_app in Hin as [Hin|Hin]; [by left|].
    apply list_elem_of_singleton in Hin as ->. by right.
Qed.

Lemma replay_symbols l d d' row :
  replay l d = Some d' → row ∈ symbols d' →
  row ∈ symbols d ∨ ∃ s, s ∈ l ∧ row_of s row.
Proof.
  revert d. induction l as [|s l IH]; intros d; simpl.
  - intros [= <-] Hin. by left.
  - destruct (run s d) as [d1|] eqn:Hs; [simpl | done].
    intros Hl Hin. destruct (IH _ Hl Hin) as [Hin1 | (s' & Hs' & Hrow)].
    + destruct (run_symbols _ _ _ _ Hs Hin1) as [?|?]; [by left | right].
      exists s. split; [by left | done].
    + right. exists s'. split; [by right | done].
Qed.

(** Every row a run leaves was there before or was inserted by it for a
    unit that passed the three name tests. *)
Lemma synchronize_rows E dir d r w row :
  synchronize E dir d = (r, w) → row ∈ symbols (db w) →
  row ∈ symbols d ∨ noise (metadata row) = false.
Proof.
  intros Hrun Hin. destruct (synchronize_journal _ _ _ _ _ Hrun) as [HQ Hr].
  destruct (replay_symbols _ _ _ _ Hr Hin) as [?|(s & Hs & Hrow)]; [by left|].
  right. rewrite Forall_forall in HQ. specialize (HQ _ Hs).
  destruct s; simpl in Hrow; try done.
  destruct HQ as (src & _ & _ & _ & Hn).
  destruct Hrow as (_ & _ & -> & _). done.
Qed.

Lemma synchronize_inserts E dir d r w id f h it :
  synchronize E dir d = (r, w) → InsertSymbol id f h it ∈ log w →
  noise it = false.
Proof.
  intros Hrun Hin. destruct (synchronize_journal _ _ _ _ _ Hrun) as [HQ _].
  rewrite Forall_forall in HQ. by destruct (HQ _ Hin) as (? & _ & _ & _ & ?).
Qed.

Lemma noise_export it : symbolName it = "export" → noise it = true.
Proof. unfold noise. by intros ->. Qed.

(** *** Claims about the name filter and the path guard *)

(** C8: a unit whose name is exactly "export" is never persisted.  The loop
    body runs nothing for it, no insert into symbols of a run carries such
    a unit, and a row with that name which a run leaves in symbols was in
    the table before the run. *)
Theorem export_unit_never_persisted E dir d r w :
  synchronize E dir d = (r, w) →
  (∀ rel h it w0,
     symbolName it = "export" → indexItem E rel h it w0 = (Ok tt, w0))
  ∧ (∀ id f h it,
       InsertSymbol id f h it ∈ log w → symbolName it ≠ "export")
  ∧ (∀ row, row ∈ symbols (db w) →
       symbolName (metadata row) = "export" → row ∈ symbols d).
Proof.
  intros Hrun. split; [|split].
  - intros rel h it w0 Hname.
    by rewrite indexItem_noise by by apply noise_export.
  - intros id f h it Hin Hname.
    apply (synchronize_inserts _ _ _ _ _ _ _ _ _ Hrun) in Hin.
    apply noise_export in Hname. congruence.
  - intros row Hin Hname.
    destruct (synchronize_rows _ _ _ _ _ _ Hrun Hin) as [?|Hn]; [done|].
    apply noise_export in Hname. congruence.
Qed.

Lemma export_unit_never_persisted_witness :
  InsertSymbol 1700000005002 "/a.ts" "H2" Demo.unitA
    ∈ log (synchronize Demo.env_keywords Demo.root Demo.empty_store).2
  ∧ symbolName Demo.unitA ≠ "export".
Proof.
  assert (Hin : InsertSymbol 1700000005002 "/a.ts" "H2" Demo.unitA
    ∈ log (synchronize Demo.env_keywords Demo.root Demo.empty_store).2).
  { vm_compute. do 5 right. left. }
  split; [exact Hin|].
  exact (proj1 (proj2 (export_unit_never_persisted Demo.env_keywords
    Demo.root Demo.empty_store _ _ eq_refl)) _ _ _ _ Hin).
Defined.

(** C9: a root directory whose path does not contain
    "x-pack/plugins/security_solution" makes buildIndex throw at once: the
    database and the journal are as they were, so no table was created and
    nothing was deleted or inserted. *)
Theorem buildIndex_rejects_other_roots E dir w :
  ¬ substring "x-pack/plugins/security_solution" dir →
  buildIndex E dir w = (Thrown InvalidPath, w).
Proof.
  intros Hsub. apply includes_false in Hsub.
  unfold buildIndex. by rewrite Hsub.
Qed.

Lemma buildIndex_rejects_other_roots_witness :
  synchronize Demo.env_changed "/home/me/project" Demo.store_a
  = (Thrown InvalidPath, MkWorld Demo.store_a [] 0).
Proof.
  apply (buildIndex_rejects_other_roots Demo.env_changed "/home/me/project").
  apply includes_false. vm_compute. reflexivity.
Defined.

(** C10, amended: the filter on unit names is a case-sensitive substring
    test.  A unit whose name holds "export", "import" or "interface"
    somewhere, such as "exportItems", is passed over by the loop body, no
    insert into symbols of a run carries such a unit, and a row with such a
    name which a run leaves in symbols was in the table before the run. *)
Theorem keyword_units_never_persisted E dir d r w :
  synchronize E dir d = (r, w) →
  (∀ rel h it w0,
     keyword_in (symbolName it) → indexItem E rel h it w0 = (Ok tt, w0))
  ∧ (∀ id f h it,
       InsertSymbol id f h it ∈ log w → ¬ keyword_in (symbolName it))
  ∧ (∀ row, row ∈ symbols (db w) →
       keyword_in (symbolName (metadata row)) → row ∈ symbols d).
Proof.
  intros Hrun. split; [|split].
  - intros rel h it w0 Hname.
    by rewrite indexItem_noise by by apply noise_spec.
  - intros id f h it Hin Hname.
    apply (synchronize_inserts _ _ _ _ _ _ _ _ _ Hrun) in Hin.
    apply noise_spec in Hname. congruence.
  - intros row Hin Hname.
    destruct (synchronize_rows _ _ _ _ _ _ Hrun Hin) as [?|Hn]; [done|].
    apply noise_spec in Hname. congruence.
Qed.

Lemma keyword_units_never_persisted_witness :
  keyword_in (symbolName Demo.unitExportItems)
  ∧ indexItem Demo.env_keywords "/a.ts" "H2" Demo.unitExportItems
      (MkWorld Demo.empty_store [] 0)
    = (Ok tt, MkWorld Demo.empty_store [] 0).
Proof.
  assert (Hkw : keyword_in (symbolName Demo.unitExportItems)).
  { left. by exists "", "Items". }
  split; [exact Hkw|].
  exact (proj1 (keyword_units_never_persisted Demo.env_keywords
    Demo.root Demo.empty_store _ _ eq_refl) _ _ _ _ Hkw).
Defined.

(** C10 as stated fails on its own example: the test is case-sensitive, so
    "MyInterfaceImpl" passes it and is persisted, next to "useAlerts";
    "export" and "exportItems" are dropped. *)
Lemma MyInterfaceImpl_is_persisted :
  generateMetadata Demo.env_keywords "source text"
  = Some [Demo.unitExport; Demo.unitExportItems; Demo.unitIface; Demo.unitA]
  ∧ metadata <$>
      symbols (db (synchronize Demo.env_keywords Demo.root
                     Demo.empty_store).2)
    = [Demo.unitIface; Demo.unitA].
Proof. split; vm_compute; reflexivity. Qed.

(** *** A fingerprint that is on record *)

Lemma checkIfFileHashExists_true h d :
  named d → (∃ row, row ∈ symbols d ∧ hash row = h) →
  checkIfFileHashExists h d = true.
Proof.
  intros Hnamed (row & Hin & Hh).
  unfold checkIfFileHashExists, pluck_by_hash.
  destruct (filter (λ r, hash r = h) (symbols d)) as [|r0 l] eqn:Hf.
  - assert (Hrow : row ∈ filter (λ r, hash r = h) (symbols d))
      by by apply list_elem_of_filter.
    rewrite Hf in Hrow. by apply not_elem_of_nil in Hrow.
  - simpl. assert (Hr0 : r0 ∈ filter (λ r, hash r = h) (symbols d))
      by (rewrite Hf; by left).
    apply list_elem_of_filter in Hr0 as [_ Hr0].
    unfold named in Hnamed. rewrite Forall_forall in Hnamed.
    specialize (Hnamed _ Hr0). by destruct (filename r0).
Qed.

(** C6: a candidate file whose fingerprint is the fingerprint of some Unit
    Record of the store, whichever file owns that record, is skipped: the
    loop body ends with 'already known, skipping' and leaves the database
    and the journal as they were, so nothing is deleted or inserted for the
    file.  Unit Records name their file (a relative path is not empty). *)
Theorem known_fingerprint_is_skipped E dir file w :
  named (db w) →
  (∃ row, row ∈ symbols (db w) ∧ hash row = sha1 E file) →
  indexFile E dir file w = (Ok AlreadyKnown, w).
Proof.
  intros Hnamed Hrow. unfold indexFile, mbind, M_bind, bind, query.
  by rewrite checkIfFileHashExists_true.
Qed.

Lemma known_fingerprint_is_skipped_witness :
  indexFile Demo.env_one_removed Demo.root "/elsewhere/copy_of_a.ts"
    (MkWorld Demo.store_two [] 0)
  = (Ok AlreadyKnown, MkWorld Demo.store_two [] 0).
Proof.
  apply known_fingerprint_is_skipped.
  - repeat constructor; discriminate.
  - exists (SymbolRow 1 "/a.ts" "H1" Demo.unitA 1700000000001).
    split; [left | reflexivity].
Defined.

(** X19: a run keeps every Unit Record named when the relative names of the
    source files are not empty. *)
Lemma synchronize_named E dir d r w :
  (∀ file, file ∈ sourceFiles E dir → replace_with_empty file dir ≠ "") →
  named d → synchronize E dir d = (r, w) → named (db w).
Proof.
  intros Hrel Hnamed Hrun. unfold named in *. rewrite Forall_forall in *.
  intros row Hin. destruct (synchronize_journal _ _ _ _ _ Hrun) as [HQ Hr].
  destruct (replay_symbols _ _ _ _ Hr Hin) as [?|(s & Hs & Hrow)]; [eauto|].
  rewrite Forall_forall in HQ. specialize (HQ _ Hs).
  destruct s; simpl in Hrow; try done.
  destruct HQ as (src & Hsrc & -> & _). destruct Hrow as (-> & _). eauto.
Qed.

(** *** The loop over the units of one file *)

Lemma noise_false it :
  noise it = false →
  includes (symbolName it) "export" = false
  ∧ includes (symbolName it) "import" = false
  ∧ includes (symbolName it) "interface" = false.
Proof.
  unfold noise. intros Hn.
  apply orb_false_iff in Hn as [Hn ?]. by apply orb_false_iff in Hn as [? ?].
Qed.

(** A unit that passes the name tests and is embedded gets the next id and
    one row in each table. *)
Lemma indexItem_stored E rel h it a w :
  noise it = false → generateEmbedding E (unit_text it) = Some a →
  embeddings (db w) !! (var_i w + 1) = None →
  indexItem E rel h it w
  = (Ok tt,
     MkWorld
       (MkDB (<[var_i w + 1 := a]> (embeddings (db w)))
             (symbols (db w)
              ++ [SymbolRow (next_rowid (symbols (db w))) rel h it
                    (var_i w + 1)]))
       ((log w ++ [InsertEmbedding (var_i w + 1) a])
        ++ [InsertSymbol (var_i w + 1) rel h it])
       (var_i w + 1)).
Proof.
  intros Hn Ha Hfree. destruct (noise_false _ Hn) as (H1 & H2 & H3).
  unfold indexItem. rewrite H1, H2, H3, Ha.
  unfold mbind, M_bind, bind, sql; simpl. by rewrite Hfree.
Qed.

(** A unit that passes the name tests and is refused by the embedder
    throws out of the loop, with nothing changed. *)
Lemma indexItem_refused E rel h it w :
  noise it = false → generateEmbedding E (unit_text it) = None →
  indexItem E rel h it w = (Thrown EmbeddingError, w).
Proof.
  intros Hn Ha. destruct (noise_false _ Hn) as (H1 & H2 & H3).
  unfold indexItem. by rewrite H1, H2, H3, Ha.
Qed.

Lemma for_of_noise_prefix E rel h pre rest w :
  Forall (λ x, noise x = true) pre →
  for_of (pre ++ rest) (indexItem E rel h) w
  = for_of rest (indexItem E rel h) w.
Proof.
  induction 1 as [|x pre Hx _ IH]; [done|].
  rewrite <- app_comm_cons, for_of_cons. by rewrite indexItem_noise.
Qed.

Lemma for_of_stored_prefix E rel h pre rest w :
  Forall (λ x, noise x = true
               ∨ is_Some (generateEmbedding E (unit_text x))) pre →
  fresh_above w →
  ∃ w1 new,
    for_of (pre ++ rest) (indexItem E rel h) w
    = for_of rest (indexItem E rel h) w1
    ∧ symbols (db w1) = symbols (db w) ++ new
    ∧ metadata <$> new = filter (λ x, noise x = false) pre
    ∧ Forall (λ r, filename r = rel ∧ hash r = h) new.
Proof.
  intros Hpre. revert w. induction Hpre as [|x pre Hx _ IH]; intros w Hfresh.
  { exists w, []. by rewrite app_nil_r. }
  rewrite <- app_comm_cons, for_of_cons.
  destruct (noise x) eqn:Hn.
  - rewrite indexItem_noise by done.
    destruct (IH w Hfresh) as (w1 & new & Hrun & Hsym & Hmeta & Hnew).
    exists w1, new. rewrite filter_cons_False by congruence. done.
  - destruct Hx as [?|[a Ha]]; [congruence|].
    rewrite (indexItem_stored _ _ _ _ a) by (try done; apply Hfresh; lia).
    match goal with |- context [for_of _ _ ?w2] =>
      destruct (IH w2) as (w1 & new & Hrun & Hsym & Hmeta & Hnew) end.
    { intros id Hid. simpl in *.
      rewrite lookup_insert_ne by lia. apply Hfresh. lia. }
    exists w1, (SymbolRow (next_rowid (symbols (db w))) rel h x
                  (var_i w + 1) :: new).
    rewrite Hrun, Hsym, fmap_cons, Hmeta, filter_cons_True by done.
    simpl. rewrite <- app_assoc. repeat split. by constructor.
Qed.

Lemma lookup_foldr_delete_None (m : gmap Z Vec) (l : list Z) k :
  m !! k = None → foldr delete m l !! k = None.
Proof.
  intros Hm. induction l as [|x l IH]; simpl; [done|].
  apply lookup_delete_None. by right.
Qed.

(** Where [indexFile] stands when the fingerprint is new and the summary
    arrived: the old vectors were deleted (by the rowids of the file's
    rows), and the loop over the units starts. *)
Lemma indexFile_changed E dir file w units :
  checkIfFileHashExists (sha1 E file) (db w) = false →
  generateMetadata E (readFile E file) = Some units →
  ∃ w0,
    symbols (db w0) = symbols (db w) ∧ var_i w0 = var_i w
    ∧ (∀ id, embeddings (db w) !! id = None →
             embeddings (db w0) !! id = None)
    ∧ indexFile E dir file w
      = match for_of units
                (indexItem E (replace_with_empty file dir) (sha1 E file)) w0
        with
        | (Ok _, w') => (Ok Completed, w')
        | (Thrown e, w') => (Ok (Caught e), w')
        end.
Proof.
  intros Hnew Hsum.
  unfold indexFile, try_catch, mbind, M_bind, bind, query.
  rewrite Hnew, Hsum. simpl.
  destruct (truthy_opt _); simpl.
  - exists (MkWorld
      (MkDB (foldr delete (embeddings (db w))
               (select_rowid_where_filename
                  (replace_with_empty file dir) (symbols (db w))))
            (symbols (db w)))
      (log w ++ [DeleteEmbeddings (replace_with_empty file dir)])
      (var_i w)).
    split; [done|]. split; [done|]. split.
    + intros id Hid. simpl. by apply lookup_foldr_delete_None.
    + by destruct (for_of _ _ _) as [[[]|] ?].
  - exists w. split; [done|]. split; [done|]. split; [done|].
    by destruct (for_of _ _ w) as [[[]|] ?].
Qed.

(** *** Failures inside one file *)

(** The loop over a stretch of units that are all filtered out or
    embedded: each unit that passes the filter gets one row and one vector
    under the same new id, and nothing else changes in either table. *)
Lemma for_of_stored_vectors E rel h pre rest w :
  Forall (λ x, noise x = true
               ∨ is_Some (generateEmbedding E (unit_text x))) pre →
  fresh_above w →
  ∃ w1 new,
    for_of (pre ++ rest) (indexItem E rel h) w
    = for_of rest (indexItem E rel h) w1
    ∧ symbols (db w1) = symbols (db w) ++ new
    ∧ metadata <$> new = filter (λ x, noise x = false) pre
    ∧ Forall (λ r, filename r = rel ∧ hash r = h
                   ∧ var_i w < embedding_id r ≤ var_i w1
                   ∧ is_Some (embeddings (db w1) !! embedding_id r)
                   ∧ embeddings (db w1) !! embedding_id r
                     = generateEmbedding E (unit_text (metadata r))) new
    ∧ NoDup (embedding_id <$> new)
    ∧ (∀ k, k ∉ embedding_id <$> new →
            embeddings (db w1) !! k = embeddings (db w) !! k)
    ∧ fresh_above w1 ∧ var_i w ≤ var_i w1.
Proof.
  intros Hpre. revert w. induction Hpre as [|x pre Hx _ IH]; intros w Hfresh.
  { exists w, []. rewrite app_nil_r. repeat split; try done; try lia.
    constructor. }
  rewrite <- app_comm_cons, for_of_cons.
  destruct (noise x) eqn:Hn.
  - rewrite indexItem_noise by done.
    destruct (IH w Hfresh) as (w1 & new & Hrun & Hsym & Hmeta & Hnew & Hrest).
    exists w1, new. rewrite filter_cons_False by congruence. done.
  - destruct Hx as [?|[a Ha]]; [congruence|].
    rewrite (indexItem_stored _ _ _ _ a) by (try done; apply Hfresh; lia).
    match goal with |- context [for_of _ _ ?w2] =>
      destruct (IH w2)
        as (w1 & new & Hrun & Hsym & Hmeta & Hnew & Hnd & Hother & Hfresh1
            & Hle) end.
    { intros id Hid. simpl in *.
      rewrite lookup_insert_ne by lia. apply Hfresh. lia. }
    simpl in *.
    assert (Hout : var_i w + 1 ∉ embedding_id <$> new).
    { intros (r & Hr & Hin)%list_elem_of_fmap.
      rewrite Forall_forall in Hnew.
      destruct (Hnew _ Hin) as (_ & _ & Hid & _). lia. }
    assert (Hx1 : embeddings (db w1) !! (var_i w + 1) = Some a).
    { rewrite Hother by done. apply lookup_insert_eq. }
    exists w1, (SymbolRow (next_rowid (symbols (db w))) rel h x
                  (var_i w + 1) :: new).
    rewrite Hrun, Hsym, fmap_cons, Hmeta, filter_cons_True by done.
    simpl. rewrite <- app_assoc.
    split; [done|]. split; [done|]. split; [done|]. split.
    { constructor; simpl.
      - rewrite Hx1, Ha. repeat split; try done; lia.
      - eapply Forall_impl; [exact Hnew|]. simpl.
        intros r (? & ? & ? & ? & ?). repeat split; try done; lia. }
    split; [by constructor|]. split; [|split; [done | lia]].
    intros k Hk. apply not_elem_of_cons in Hk as [Hk1 Hk2].
    rewrite Hother by done. by rewrite lookup_insert_ne.
Qed.

Lemma lookup_foldr_delete_Some (m : gmap Z Vec) (l : list Z) k v :
  foldr delete m l !! k = Some v → m !! k = Some v.
Proof.
  induction l as [|x l IH]; simpl; [done|].
  intros [_ Hk]%lookup_delete_Some. by apply IH.
Qed.

(** As [indexFile_changed], with what the delete leaves in embeddings: no
    vector that was not there. *)
Lemma indexFile_changed_vectors E dir file w units :
  checkIfFileHashExists (sha1 E file) (db w) = false →
  generateMetadata E (readFile E file) = Some units →
  ∃ w0,
    symbols (db w0) = symbols (db w) ∧ var_i w0 = var_i w
    ∧ (∀ id v, embeddings (db w0) !! id = Some v →
               embeddings (db w) !! id = Some v)
    ∧ indexFile E dir file w
      = match for_of units
                (indexItem E (replace_with_empty file dir) (sha1 E file)) w0
        with
        | (Ok _, w') => (Ok Completed, w')
        | (Thrown e, w') => (Ok (Caught e), w')
        end.
Proof.
  intros Hnew Hsum.
  unfold indexFile, try_catch, mbind, M_bind, bind, query.
  rewrite Hnew, Hsum. simpl.
  destruct (truthy_opt _); simpl.
  - exists (MkWorld
      (MkDB (foldr delete (embeddings (db w))
               (select_rowid_where_filename
                  (replace_with_empty file dir) (symbols (db w))))
            (symbols (db w)))
      (log w ++ [DeleteEmbeddings (replace_with_empty file dir)])
      (var_i w)).
    split; [done|]. split; [done|]. split.
    + intros id v. simpl. apply lookup_foldr_delete_Some.
    + by destruct (for_of _ _ _) as [[[]|] ?].
  - exists w. split; [done|]. split; [done|]. split; [done|].
    by destruct (for_of _ _ w) as [[[]|] ?].
Qed.

(** C4, amended: when the embedder fails for one unit of a file, the
    [catch] block ends the work on that file.  The units before the failing
    one that passed the name filter are persisted, each as one row under
    the file's name and new fingerprint together with its vector under the
    row's [embedding_id]; the failing unit and all units after it get no
    row, and no vector is added but the ones of the new rows.  The loop
    body returns, so the run goes on with the next file.  The ids the
    counter hands out are taken to be free in embeddings. *)
Theorem embedder_failure_ends_the_file E dir file w pre it post :
  checkIfFileHashExists (sha1 E file) (db w) = false →
  generateMetadata E (readFile E file) = Some (pre ++ it :: post) →
  Forall (λ x, noise x = true
               ∨ is_Some (generateEmbedding E (unit_text x))) pre →
  noise it = false →
  generateEmbedding E (unit_text it) = None →
  fresh_above w →
  ∃ w' new,
    indexFile E dir file w = (Ok (Caught EmbeddingError), w')
    ∧ symbols (db w') = symbols (db w) ++ new
    ∧ metadata <$> new = filter (λ x, noise x = false) pre
    ∧ Forall (λ r, filename r = replace_with_empty file dir
                   ∧ hash r = sha1 E file
                   ∧ embeddings (db w) !! embedding_id r = None
                   ∧ is_Some (embeddings (db w') !! embedding_id r)
                   ∧ embeddings (db w') !! embedding_id r
                     = generateEmbedding E (unit_text (metadata r))) new
    ∧ NoDup (embedding_id <$> new)
    ∧ (∀ k v, embeddings (db w') !! k = Some v →
              embeddings (db w) !! k = Some v ∨ k ∈ embedding_id <$> new).
Proof.
  intros Hnew Hsum Hpre Hn Hemb Hfresh.
  destruct (indexFile_changed_vectors E dir file w _ Hnew Hsum)
    as (w0 & Hsym0 & Hi0 & Hemb0 & ->).
  assert (Hfresh0 : fresh_above w0).
  { intros id Hid. rewrite Hi0 in Hid.
    destruct (embeddings (db w0) !! id) as [v|] eqn:Hv; [|done].
    apply Hemb0 in Hv. by rewrite Hfresh in Hv. }
  destruct (for_of_stored_vectors E (replace_with_empty file dir)
              (sha1 E file) pre (it :: post) w0 Hpre Hfresh0)
    as (w1 & new & -> & Hsym1 & Hmeta & Hrows & Hnd & Hother & _ & _).
  exists w1, new. rewrite for_of_cons, indexItem_refused by done.
  split; [done|]. split; [by rewrite Hsym1, Hsym0|]. split; [done|].
  split; [|split; [done|]].
  - eapply Forall_impl; [exact Hrows|]. simpl.
    intros r (? & ? & [Hid _] & ? & ?). repeat split; try done.
    apply Hfresh. lia.
  - intros k v Hv.
    destruct (decide (k ∈ embedding_id <$> new)) as [?|Hk]; [by right|].
    left. apply Hemb0. by rewrite <- Hother.
Qed.

Lemma embedder_failure_ends_the_file_witness :
  ∃ w' new,
    indexFile Demo.env_embed_fails Demo.root (Demo.root +:+ "/a.ts")
      (MkWorld Demo.store_a [] 1700000005000)
    = (Ok (Caught EmbeddingError), w')
    ∧ symbols (db w') = symbols Demo.store_a ++ new
    ∧ metadata <$> new = [Demo.unitA]
    ∧ Forall (λ r, filename r = "/a.ts" ∧ hash r = "H2"
                   ∧ embeddings Demo.store_a !! embedding_id r = None
                   ∧ is_Some (embeddings (db w') !! embedding_id r)
                   ∧ embeddings (db w') !! embedding_id r
                     = generateEmbedding Demo.env_embed_fails
                         (unit_text (metadata r))) new
    ∧ NoDup (embedding_id <$> new)
    ∧ (∀ k v, embeddings (db w') !! k = Some v →
              embeddings Demo.store_a !! k = Some v
              ∨ k ∈ embedding_id <$> new).
Proof.
  apply (embedder_failure_ends_the_file Demo.env_embed_fails Demo.root
           (Demo.root +:+ "/a.ts")
           (MkWorld Demo.store_a [] 1700000005000)
           [Demo.unitA] Demo.unitB [Demo.unitC]).
  - reflexivity.
  - reflexivity.
  - constructor; [right; eexists; reflexivity | constructor].
  - reflexivity.
  - vm_compute. reflexivity.
  - intros id Hid. simpl in *. apply lookup_singleton_ne. lia.
Defined.

(** C4 as stated fails: the embedder accepts the third unit, yet after the
    failure on the second one only the first is in the table. *)
Lemma sibling_after_failure_is_lost :
  generateEmbedding Demo.env_embed_fails (unit_text Demo.unitC)
  = Some [1 # 4]%Q
  ∧ (synchronize Demo.env_embed_fails Demo.root Demo.empty_store).1
    = Ok [Caught EmbeddingError]
  ∧ metadata <$>
      symbols (db (synchronize Demo.env_embed_fails Demo.root
                     Demo.empty_store).2)
    = [Demo.unitA].
Proof. repeat split; vm_compute; reflexivity. Qed.

(** C5 as stated fails: the run records an embedder failure on the file,
    yet a Unit Record with the new fingerprint is in the table, and a
    second run on the resulting store skips the file. *)
Lemma late_failure_persists_the_fingerprint :
  (synchronize Demo.env_embed_fails Demo.root Demo.empty_store).1
  = Ok [Caught EmbeddingError]
  ∧ hash <$>
      symbols (db (synchronize Demo.env_embed_fails Demo.root
                     Demo.empty_store).2)
    = ["H2"]
  ∧ (synchronize Demo.env_embed_fails Demo.root
       (db (synchronize Demo.env_embed_fails Demo.root
              Demo.empty_store).2)).1
    = Ok [AlreadyKnown].
Proof. repeat split; vm_compute; reflexivity. Qed.

(** ** runQuery *)

#[global] Instance ascending_trans {A} (key : A → Q) : Transitive (ascending key).
Proof. intros x y z. unfold ascending. apply Qle_trans. Qed.

#[global] Instance ascending_total {A} (key : A → Q) : Total (ascending key).
Proof.
  intros x y. unfold ascending.
  destruct (Qlt_le_dec (key x) (key y)); [left; by apply Qlt_le_weak | by right].
Qed.

Lemma order_by_sorted {A} (key : A → Q) l :
  StronglySorted (ascending key) (order_by key l).
Proof. apply StronglySorted_merge_sort; apply _. Qed.

Lemma order_by_perm {A} (key : A → Q) l : order_by key l ≡ₚ l.
Proof. apply merge_sort_Permutation. Qed.




Lemma join_symbols_elem hits syms e f :
  e ∈ hits → f ∈ syms → embedding_id f = hit_rowid e →
  ResultRow (hit_rowid e) (hit_distance e) (filename f) (metadata f)
    ∈ join_symbols hits syms.
Proof.
  intros He Hf Hid. unfold join_symbols.
  apply list_elem_of_bind. exists e. split; [|done].
  apply list_elem_of_bind. exists f. split; [by left|].
  by apply list_elem_of_filter.
Qed.


(** What a returned result is. *)
Lemma runQuery_Some E q d res :
  runQuery E q d = Some res ↔
  ∃ qe, generateEmbedding E q = Some qe ∧ size (embeddings d) ≠ 0%nat
        ∧ res = order_by res_distance
                  (join_symbols (nearest E qe LIMIT (embeddings d))
                                (symbols d)).
Proof.
  unfold runQuery, vss_search.
  destruct (generateEmbedding E q) as [qe|]; simpl.
  - destruct (decide (size (embeddings d) = 0%nat)); simpl.
    + split; [done | by intros (? & _ & ? & _)].
    + split.
      * intros [= <-]. by exists qe.
      * by intros (? & [= <-] & _ & ->).
  - split; [done | by intros (? & ? & _)].
Qed.


(** ** The deletions *)

(** What the delete on embeddings removes: the entries whose rowid is the
    implicit rowid of one of the file's symbols rows.  An entry whose rowid
    is no rowid of symbols stays, whichever row refers to it. *)
Lemma DeleteEmbeddings_keeps file d d' id :
  run (DeleteEmbeddings file) d = Some d' →
  id ∉ rowid <$> symbols d →
  embeddings d' !! id = embeddings d !! id.
Proof.
  intros [= <-] Hid. simpl. unfold select_rowid_where_filename.
  induction (symbols d) as [|x l IH]; simpl; [done|].
  rewrite fmap_cons, not_elem_of_cons in Hid. destruct Hid as [Hx Hl].
  destruct (decide (filename x = file)).
  - rewrite filter_cons_True by done. simpl.
    rewrite lookup_delete_ne by done. by apply IH.
  - rewrite filter_cons_False by done. by apply IH.
Qed.

(** C3, at a store with one unit of /a.ts and a tree without /a.ts: the
    pruning pass runs both deletes and the symbols row goes, but the paired
    vector 1700000000001 stays, because the delete on embeddings selects by
    the rowid of the symbols row, which is 1. *)
Theorem pruning_leaves_the_paired_vector :
  synchronize Demo.env_removed Demo.root Demo.store_a
  = (Ok [],
     MkWorld (MkDB {[ 1700000000001 := [1 # 2]%Q ]} [])
             [CreateEmbeddings; CreateSymbols;
              DeleteEmbeddings "/a.ts"; DeleteSymbols "/a.ts"]
             1700000005000).
Proof. vm_compute. reflexivity. Qed.

(** C1, at a consistent store with a unit of /a.ts (unchanged) and a unit
    of /gone.ts (removed from the tree): the run completes, and afterwards
    the vector 1700000000002 is in embeddings while no symbols row refers
    to it, so the store is no longer consistent. *)
Theorem run_leaves_an_orphan_vector :
  consistent Demo.store_two
  ∧ (synchronize Demo.env_one_removed Demo.root Demo.store_two).1
    = Ok [AlreadyKnown]
  ∧ symbols (db (synchronize Demo.env_one_removed Demo.root
                   Demo.store_two).2)
    = [SymbolRow 1 "/a.ts" "H1" Demo.unitA 1700000000001]
  ∧ embeddings (db (synchronize Demo.env_one_removed Demo.root
                      Demo.store_two).2) !! 1700000000002
    = Some [1 # 3]%Q
  ∧ ¬ consistent (db (synchronize Demo.env_one_removed Demo.root
                        Demo.store_two).2).
Proof.
  assert (Hsym : symbols (db (synchronize Demo.env_one_removed Demo.root
                                Demo.store_two).2)
                 = [SymbolRow 1 "/a.ts" "H1" Demo.unitA 1700000000001])
    by (vm_compute; reflexivity).
  assert (Hemb : embeddings (db (synchronize Demo.env_one_removed Demo.root
                                   Demo.store_two).2) !! 1700000000002
                 = Some [1 # 3]%Q)
    by (vm_compute; reflexivity).
  split; [|split; [vm_compute; reflexivity | split; [done | split; [done|]]]].
  - split.
    + intros row Hrow. simpl in Hrow.
      apply list_elem_of_In in Hrow as [<-|[<-|[]]]; by eexists.
    + intros id [a Ha]. unfold Demo.store_two in Ha. cbn [embeddings] in Ha.
      destruct (decide (id = 1700000000001)) as [->|?];
        [eexists; split; [by left | done]|].
      destruct (decide (id = 1700000000002)) as [->|?];
        [eexists; split; [right; by left | done]|].
      rewrite lookup_insert_ne, lookup_singleton_ne in Ha by done. done.
  - intros [_ Horphan].
    destruct (Horphan 1700000000002) as (row & Hrow & Hid); [by eexists|].
    rewrite Hsym in Hrow. apply list_elem_of_singleton in Hrow as ->.
    discriminate Hid.
Qed.

(** C2, at a store with one unit of /a.ts under H1 and a tree where /a.ts
    has the fingerprint H2 and two units: the run deletes no symbols row.
    The old row under H1 stays next to the two new rows under H2, and the
    journal holds no delete on symbols. *)
Theorem changed_file_keeps_its_old_rows :
  synchronize Demo.env_changed Demo.root Demo.store_a
  = (Ok [Completed],
     MkWorld
       (MkDB {[ 1700000000001 := [1 # 2]%Q;
                1700000005001 := [1 # 4]%Q;
                1700000005002 := [1 # 4]%Q ]}
             [SymbolRow 1 "/a.ts" "H1" Demo.unitA 1700000000001;
              SymbolRow 2 "/a.ts" "H2" Demo.unitB 1700000005001;
              SymbolRow 3 "/a.ts" "H2" Demo.unitC 1700000005002])
       [CreateEmbeddings; CreateSymbols; DeleteEmbeddings "/a.ts";
        InsertEmbedding 1700000005001 [1 # 4]%Q;
        InsertSymbol 1700000005001 "/a.ts" "H2" Demo.unitB;
        InsertEmbedding 1700000005002 [1 # 4]%Q;
        InsertSymbol 1700000005002 "/a.ts" "H2" Demo.unitC]
       1700000005002).
Proof. vm_compute. reflexivity. Qed.

(** * Further properties of the code *)

(** ** What the directory walk returns *)

Lemma node_ind (P : Walk.node → Prop) :
  P Walk.File → P Walk.Special → P Walk.Broken → P Walk.Locked →
  (∀ entries, Forall (λ e, P e.2) entries → P (Walk.Directory entries)) →
  ∀ n, P n.
Proof.
  intros HF HS HB HL HD. fix IH 1.
  intros [|entries| | |]; [exact HF | | exact HS | exact HB | exact HL].
  apply HD. induction entries as [|[name child] rest IHrest];
    constructor; [apply IH | apply IHrest].
Qed.

Lemma walk_nil join dir : Walk.walk join dir (Walk.Directory []) = Some [].
Proof. reflexivity. Qed.

Lemma walk_cons join dir file child rest :
  Walk.walk join dir (Walk.Directory ((file, child) :: rest))
  = if includes file "node_modules"
    then Walk.walk join dir (Walk.Directory rest)
    else if includes file ".git"
    then Walk.walk join dir (Walk.Directory rest)
    else match child with
         | Walk.File =>
             match Walk.walk join dir (Walk.Directory rest) with
             | Some result => Some (join dir file :: result)
             | None => None
             end
         | Walk.Directory _ | Walk.Locked =>
             match Walk.walk join (join dir file) child with
             | Some below =>
                 match Walk.walk join dir (Walk.Directory rest) with
                 | Some result => Some (below ++ result)
                 | None => None
                 end
             | None => None
             end
         | Walk.Special => Walk.walk join dir (Walk.Directory rest)
         | Walk.Broken => None
         end.
Proof. destruct child; reflexivity. Qed.

Lemma not_skipped name :
  ¬ Walk.skipped name ↔
  includes name "node_modules" = false ∧ includes name ".git" = false.
Proof. unfold Walk.skipped. rewrite !includes_false. tauto. Qed.

(** One level of a walk that returns. *)
Lemma walk_directory join dir entries files p :
  Walk.walk join dir (Walk.Directory entries) = Some files →
  p ∈ files ↔
  ∃ name child,
    (name, child) ∈ entries ∧ ¬ Walk.skipped name
    ∧ (child = Walk.File ∧ p = join dir name
       ∨ ∃ sub below, child = Walk.Directory sub
           ∧ Walk.walk join (join dir name) child = Some below
           ∧ p ∈ below).
Proof.
  revert files. induction entries as [|[file child] rest IH]; intros files.
  { rewrite walk_nil. intros [= <-]. split; [by intros ?%not_elem_of_nil|].
    by intros (? & ? & ?%not_elem_of_nil & _). }
  rewrite walk_cons.
  assert (Hrest : ∀ result,
    Walk.walk join dir (Walk.Directory rest) = Some result →
    p ∈ result →
    ∃ name child0, (name, child0) ∈ (file, child) :: rest
      ∧ ¬ Walk.skipped name
      ∧ (child0 = Walk.File ∧ p = join dir name
         ∨ ∃ sub below, child0 = Walk.Directory sub
             ∧ Walk.walk join (join dir name) child0 = Some below
             ∧ p ∈ below)).
  { intros result Hres (name & c & Hin & Hok)%(IH _ Hres). exists name, c.
    split; [by right | done]. }
  assert (Hskip : Walk.skipped file →
    ∀ result, Walk.walk join dir (Walk.Directory rest) = Some result →
    (∃ name child0, (name, child0) ∈ (file, child) :: rest
      ∧ ¬ Walk.skipped name
      ∧ (child0 = Walk.File ∧ p = join dir name
         ∨ ∃ sub below, child0 = Walk.Directory sub
             ∧ Walk.walk join (join dir name) child0 = Some below
             ∧ p ∈ below)) → p ∈ result).
  { intros Hs result Hres (name & c & Hin & Hok & Hp).
    apply elem_of_cons in Hin as [[= -> ->]|Hin]; [done|].
    apply (IH _ Hres). by exists name, c. }
  destruct (includes file "node_modules") eqn:H1.
  { intros Hres. split; [by apply Hrest|]. apply Hskip; [|done].
    left. by apply includes_spec. }
  destruct (includes file ".git") eqn:H2.
  { intros Hres. split; [by apply Hrest|]. apply Hskip; [|done].
    right. by apply includes_spec. }
  assert (Hok : ¬ Walk.skipped file) by by apply not_skipped.
  assert (Hback : ∀ result,
    Walk.walk join dir (Walk.Directory rest) = Some result →
    ∀ name c, (name, c) ∈ rest → ¬ Walk.skipped name →
      (c = Walk.File ∧ p = join dir name
       ∨ ∃ sub below, c = Walk.Directory sub
           ∧ Walk.walk join (join dir name) c = Some below ∧ p ∈ below) →
      p ∈ result).
  { intros result Hres name c Hin Hn Hp. apply (IH _ Hres).
    by exists name, c. }
  destruct child as [|sub| | |]; [| | |done|].
  - destruct (Walk.walk join dir (Walk.Directory rest)) as [result|] eqn:Hres;
      [|done].
    intros [= <-]. split.
    + intros [->|Hp]%elem_of_cons; [|by apply (Hrest result)].
      exists file, Walk.File. split; [by left|]. split; [done|]. by left.
    + intros (name & c & Hin & Hn & Hp).
      apply elem_of_cons in Hin as [[= -> ->]|Hin].
      * destruct Hp as [[_ ->]|(? & ? & ? & _)]; [by left | done].
      * right. by apply (Hback result eq_refl name c).
  - destruct (Walk.walk join (join dir file) (Walk.Directory sub))
      as [below|] eqn:Hbelow; [|done].
    destruct (Walk.walk join dir (Walk.Directory rest)) as [result|] eqn:Hres;
      [|done].
    intros [= <-]. split.
    + intros [Hp|Hp]%elem_of_app; [|by apply (Hrest result)].
      exists file, (Walk.Directory sub). split; [by left|].
      split; [done|]. right. by exists sub, below.
    + intros (name & c & Hin & Hn & Hp). apply elem_of_app.
      apply elem_of_cons in Hin as [[= -> ->]|Hin].
      * destruct Hp as [[? _]|(? & below' & _ & Hb & Hp)]; [done|].
        left. rewrite Hbelow in Hb. by injection Hb as ->.
      * right. by apply (Hback result eq_refl name c).
  - intros Hres. split; [by apply Hrest|].
    intros (name & c & Hin & Hn & Hp).
    apply elem_of_cons in Hin as [[= -> ->]|Hin].
    + by destruct Hp as [[? _]|(? & ? & ? & _)].
    + by apply (Hback files Hres name c).
  - done.
Qed.

(** A walk that returns went through every directory below that is not
    skipped. *)
Lemma walk_below join dir entries files name sub :
  Walk.walk join dir (Walk.Directory entries) = Some files →
  (name, Walk.Directory sub) ∈ entries → ¬ Walk.skipped name →
  is_Some (Walk.walk join (join dir name) (Walk.Directory sub)).
Proof.
  intros Hwalk Hin Hok. apply not_skipped in Hok as [H1 H2].
  revert files Hwalk.
  induction entries as [|[file child] rest IH]; intros files;
    [by apply not_elem_of_nil in Hin|].
  rewrite walk_cons.
  apply elem_of_cons in Hin as [[= <- <-]|Hin].
  - rewrite H1, H2.
    destruct (Walk.walk join (join dir name) (Walk.Directory sub)); [|done].
    by eexists.
  - specialize (IH Hin).
    destruct (includes file "node_modules"); [apply IH|].
    destruct (includes file ".git"); [apply IH|].
    destruct child as [|sub'| | |]; [| |apply IH|done|done].
    + destruct (Walk.walk join dir (Walk.Directory rest)) eqn:Hres; [|done].
      intros _. by apply (IH l).
    + destruct (Walk.walk join (join dir file) (Walk.Directory sub'));
        [|done].
      destruct (Walk.walk join dir (Walk.Directory rest)) eqn:Hres; [|done].
      intros _. by apply (IH l0).
Qed.

Lemma walk_sound join dir n files p :
  Walk.walk join dir n = Some files → p ∈ files →
  ∃ chain, Walk.file_at n chain
           ∧ Forall (λ name, ¬ Walk.skipped name) chain
           ∧ p = foldl join dir chain.
Proof.
  revert dir files p. induction n as [| | | |entries IH] using node_ind;
    intros dir files p Hwalk Hp; try done.
  apply (walk_directory _ _ _ _ _ Hwalk)
    in Hp as (name & child & Hin & Hok & Hp).
  destruct Hp as [[-> ->]|(sub & below & -> & Hbelow & Hp)].
  - exists [name]. split; [by constructor|]. split; [by constructor|done].
  - rewrite Forall_forall in IH.
    destruct (IH _ Hin _ _ _ Hbelow Hp) as (chain & Hat & Hchain & ->).
    exists (name :: chain). split; [by econstructor|].
    split; [by constructor | done].
Qed.

Lemma walk_complete join dir n files chain :
  Walk.walk join dir n = Some files →
  Walk.file_at n chain → Forall (λ name, ¬ Walk.skipped name) chain →
  foldl join dir chain ∈ files.
Proof.
  intros Hwalk Hat. revert dir files Hwalk.
  induction Hat as [entries name Hin | entries name sub chain Hin Hat IH];
    intros dir files Hwalk Hchain; apply (walk_directory _ _ _ _ _ Hwalk).
  - apply Forall_cons in Hchain as [Hok _].
    exists name, Walk.File. split; [done|]. split; [done|]. by left.
  - apply Forall_cons in Hchain as [Hok Hchain].
    destruct (walk_below _ _ _ _ _ _ Hwalk Hin Hok) as [below Hbelow].
    exists name, (Walk.Directory sub). split; [done|]. split; [done|].
    right. exists sub, below. split; [done|]. split; [done|].
    by apply IH.
Qed.

(** One level of a walk that rejects. *)
Lemma walk_directory_None join dir entries :
  Walk.walk join dir (Walk.Directory entries) = None ↔
  ∃ name child,
    (name, child) ∈ entries ∧ ¬ Walk.skipped name
    ∧ (child = Walk.Broken ∨ child = Walk.Locked
       ∨ ∃ sub, child = Walk.Directory sub
           ∧ Walk.walk join (join dir name) child = None).
Proof.
  induction entries as [|[file child] rest IH].
  { rewrite walk_nil. split; [done|].
    by intros (? & ? & ?%not_elem_of_nil & _). }
  rewrite walk_cons.
  assert (Hrest : Walk.walk join dir (Walk.Directory rest) = None →
    ∃ name child0, (name, child0) ∈ (file, child) :: rest
      ∧ ¬ Walk.skipped name
      ∧ (child0 = Walk.Broken ∨ child0 = Walk.Locked
         ∨ ∃ sub, child0 = Walk.Directory sub
             ∧ Walk.walk join (join dir name) child0 = None)).
  { intros (name & c & Hin & Hok)%IH. exists name, c.
    split; [by right | done]. }
  assert (Hback : ∀ name c, (name, c) ∈ rest → ¬ Walk.skipped name →
    (c = Walk.Broken ∨ c = Walk.Locked
     ∨ ∃ sub, c = Walk.Directory sub
         ∧ Walk.walk join (join dir name) c = None) →
    Walk.walk join dir (Walk.Directory rest) = None).
  { intros name c Hin Hn Hc. apply IH. by exists name, c. }
  destruct (includes file "node_modules") eqn:H1.
  { split; [done|]. intros (name & c & Hin & Hn & Hc).
    apply elem_of_cons in Hin as [[= -> ->]|Hin]; [|by eapply Hback].
    destruct Hn. left. by apply includes_spec. }
  destruct (includes file ".git") eqn:H2.
  { split; [done|]. intros (name & c & Hin & Hn & Hc).
    apply elem_of_cons in Hin as [[= -> ->]|Hin]; [|by eapply Hback].
    destruct Hn. right. by apply includes_spec. }
  assert (Hok : ¬ Walk.skipped file) by by apply not_skipped.
  destruct child as [|sub| | |].
  - destruct (Walk.walk join dir (Walk.Directory rest)) as [result|] eqn:Hres.
    + split; [done|]. intros (name & c & Hin & Hn & Hc).
      apply elem_of_cons in Hin as [[= -> ->]|Hin].
      * by destruct Hc as [?|[?|(? & ? & _)]].
      * by pose proof (Hback name c Hin Hn Hc).
    + split; [intros _; by apply Hrest | done].
  - destruct (Walk.walk join (join dir file) (Walk.Directory sub))
      as [below|] eqn:Hbelow.
    + destruct (Walk.walk join dir (Walk.Directory rest))
        as [result|] eqn:Hres.
      * split; [done|]. intros (name & c & Hin & Hn & Hc).
        apply elem_of_cons in Hin as [[= -> ->]|Hin].
        -- destruct Hc as [?|[?|(? & _ & Hnone)]]; [done..|].
           by rewrite Hbelow in Hnone.
        -- by pose proof (Hback name c Hin Hn Hc).
      * split; [intros _; by apply Hrest | done].
    + split; [|done]. intros _. exists file, (Walk.Directory sub).
      split; [by left|]. split; [done|]. right. right. by exists sub.
  - split; [done|]. intros (name & c & Hin & Hn & Hc).
    apply elem_of_cons in Hin as [[= -> ->]|Hin].
    + by destruct Hc as [?|[?|(? & ? & _)]].
    + by eapply Hback.
  - split; [|done]. intros _. exists file, Walk.Broken.
    split; [by left|]. split; [done|]. by left.
  - split; [|done]. intros _. exists file, Walk.Locked.
    split; [by left|]. split; [done|]. right. by left.
Qed.

Lemma walk_rejects_at join n :
  ∀ dir entries, n = Walk.Directory entries →
    Walk.walk join dir n = None ↔
    ∃ chain, Walk.rejects_at n chain
             ∧ Forall (λ name, ¬ Walk.skipped name) chain.
Proof.
  induction n as [| | | |entries IH] using node_ind;
    intros dir entries0 Heq; try done.
  clear entries0 Heq. rewrite walk_directory_None.
  rewrite Forall_forall in IH. split.
  - intros (name & child & Hin & Hok & Hc).
    destruct Hc as [->|[->|(sub & -> & Hnone)]].
    + exists [name]. split; [|by constructor].
      apply (Walk.rejects_here _ _ Walk.Broken); [done | by left].
    + exists [name]. split; [|by constructor].
      apply (Walk.rejects_here _ _ Walk.Locked); [done | by right].
    + apply (IH _ Hin (join dir name) sub eq_refl)
        in Hnone as (chain & Hat & Hchain).
      exists (name :: chain). split; [by econstructor | by constructor].
  - intros (chain & Hat & Hchain).
    inversion Hat as [es name child Hin Hc | es name sub ch Hin Hsub]; subst.
    + apply Forall_cons in Hchain as [Hok _].
      exists name, child. split; [done|]. split; [done|].
      destruct Hc as [->| ->]; [by left | right; by left].
    + apply Forall_cons in Hchain as [Hok Hchain].
      exists name, (Walk.Directory sub). split; [done|]. split; [done|].
      right. right. exists sub. split; [done|].
      apply (IH _ Hin (join dir name) sub eq_refl). by exists ch.
Qed.

(** X1: the walk returns the regular files that are reached from the
    directory through names of which none holds "node_modules" or ".git",
    each under the path that [path.join] builds along the way, and nothing
    else: what lies under a skipped name is never returned. *)
Theorem traverseFiles_returns_the_files_not_skipped join dir n files p :
  Walk.traverseFiles join dir n = Some files →
  p ∈ files ↔
  ∃ chain, Walk.file_at n chain
           ∧ Forall (λ name, ¬ Walk.skipped name) chain
           ∧ p = foldl join dir chain.
Proof.
  unfold Walk.traverseFiles. intros Hwalk. split; [by apply walk_sound|].
  intros (chain & Hat & Hchain & ->). by apply (walk_complete _ _ n).
Qed.

Lemma traverseFiles_returns_the_files_not_skipped_witness :
  Walk.traverseFiles Cases.join "/repo" Cases.repo = Some ["/repo/src/a.ts"]
  ∧ ("/repo/.git/config" ∈ ["/repo/src/a.ts"] ↔
     ∃ chain, Walk.file_at Cases.repo chain
              ∧ Forall (λ name, ¬ Walk.skipped name) chain
              ∧ "/repo/.git/config" = foldl Cases.join "/repo" chain).
Proof.
  split; [reflexivity|].
  by apply (traverseFiles_returns_the_files_not_skipped Cases.join "/repo"
              Cases.repo).
Defined.
(** X21: the walk of a directory rejects exactly when an entry on which
    [fs.stat] or [fs.readdir] rejects is reached through names that are
    not skipped; such an entry under "node_modules" or ".git" does no
    harm. *)
Theorem traverseFiles_rejects_at_a_broken_entry join dir entries :
  Walk.traverseFiles join dir (Walk.Directory entries) = None ↔
  ∃ chain, Walk.rejects_at (Walk.Directory entries) chain
           ∧ Forall (λ name, ¬ Walk.skipped name) chain.
Proof. unfold Walk.traverseFiles. by apply (walk_rejects_at _ _ _ entries). Qed.

Lemma traverseFiles_rejects_at_a_broken_entry_witness :
  Walk.traverseFiles Cases.join "/repo" Cases.repo_broken = None
  ∧ ∃ chain, Walk.rejects_at Cases.repo_broken chain
             ∧ Forall (λ name, ¬ Walk.skipped name) chain.
Proof.
  split; [reflexivity|].
  by apply (traverseFiles_rejects_at_a_broken_entry Cases.join "/repo").
Defined.

(** ** Paths and the candidate filter *)

Lemma append_assoc (a b c : string) : (a +:+ b) +:+ c = a +:+ b +:+ c.
Proof.
  induction a as [|x a IH]; [done|]. rewrite !append_cons. by rewrite IH.
Qed.

Lemma append_nil_r (a : string) : a +:+ "" = a.
Proof. induction a as [|x a IH]; [done|]. rewrite append_cons. by rewrite IH. Qed.

Lemma substring_trans a b c : substring a b → substring b c → substring a c.
Proof.
  intros (x & y & ->) (u & v & ->). exists (u +:+ x), (y +:+ v).
  by rewrite !append_assoc.
Qed.

Lemma startsWith_append s t : startsWith (s +:+ t) s = true.
Proof. apply startsWith_spec. by exists t. Qed.

Lemma drop_append s t : JsString.drop (String.length s) (s +:+ t) = t.
Proof. induction s as [|x s IH]; [by destruct t | done]. Qed.

Lemma replace_with_empty_unfold s pat :
  replace_with_empty s pat
  = if startsWith s pat then JsString.drop (String.length pat) s
    else match s with
         | EmptyString => EmptyString
         | String c s' => String c (replace_with_empty s' pat)
         end.
Proof. by destruct s. Qed.

Lemma replace_with_empty_prefix dir rest :
  replace_with_empty (dir +:+ rest) dir = rest.
Proof.
  rewrite replace_with_empty_unfold, startsWith_append. apply drop_append.
Qed.

(** X3: the relative name of a file: a path that starts with the root loses
    the root and keeps the rest, so joining the rest to the root again
    gives the path back; a path in which the root does not occur is kept
    whole. *)
Theorem relative_name_strips_the_root dir :
  (∀ rest, replace_with_empty (dir +:+ rest) dir = rest)
  ∧ (∀ file, ¬ substring dir file → replace_with_empty file dir = file).
Proof.
  split; [apply replace_with_empty_prefix|].
  intros file. induction file as [|c file IH]; intros Hno.
  - rewrite replace_with_empty_unfold.
    destruct (startsWith "" dir) eqn:Hs; [|done].
    destruct Hno. apply includes_spec. simpl. by rewrite Hs.
  - rewrite replace_with_empty_unfold.
    destruct (startsWith (String c file) dir) eqn:Hs.
    { destruct Hno. apply includes_spec. simpl. by rewrite Hs. }
    f_equal. apply IH. intros (a & b & ->). apply Hno.
    exists (String c a), b. by rewrite append_cons.
Qed.

(** X2: with [path.join] appending to the directory, every path of the walk
    starts with the root and has a relative name that is not empty. *)
Theorem walked_paths_extend_the_root join dir n files p :
  (∀ d f, ∃ t, t ≠ "" ∧ join d f = d +:+ t) →
  Walk.traverseFiles join dir n = Some files → p ∈ files →
  ∃ t, t ≠ "" ∧ p = dir +:+ t ∧ replace_with_empty p dir = t.
Proof.
  intros Hjoin Hwalk Hp.
  apply (walk_sound _ _ _ _ _ Hwalk) in Hp as (chain & Hat & _ & ->).
  assert (Hne : chain ≠ []) by (by destruct Hat).
  clear Hat Hwalk. revert dir.
  assert (Hext : ∀ chain dir, ∃ t, foldl join dir chain = dir +:+ t
                                   ∧ (chain ≠ [] → t ≠ "")).
  { clear Hne. intros chain0.
    induction chain0 as [|name chain0 IH]; intros dir.
    - exists "". by rewrite append_nil_r.
    - destruct (Hjoin dir name) as (t & Ht & Hj).
      destruct (IH (join dir name)) as (t' & Hf & _).
      exists (t +:+ t'). simpl. rewrite Hf, Hj, append_assoc.
      split; [done|]. intros _. by destruct t. }
  intros dir. destruct (Hext chain dir) as (t & -> & Ht).
  exists t. split; [by apply Ht|]. split; [done|].
  apply replace_with_empty_prefix.
Qed.

Lemma walked_paths_extend_the_root_witness :
  ∃ t, t ≠ "" ∧ "/repo/src/a.ts" = "/repo" +:+ t
       ∧ replace_with_empty "/repo/src/a.ts" "/repo" = t.
Proof.
  apply (walked_paths_extend_the_root Cases.join "/repo" Cases.repo
           ["/repo/src/a.ts"]).
  - intros d f. exists ("/" +:+ f). split; [done | reflexivity].
  - reflexivity.
  - left.
Defined.

Lemma length_append (a b : string) :
  String.length (a +:+ b) = (String.length a + String.length b)%nat.
Proof. induction a as [|x a IH]; [done|]. rewrite append_cons. simpl. by rewrite IH. Qed.

Lemma drop_splits n s : ∃ stem, s = stem +:+ JsString.drop n s.
Proof.
  revert s. induction n as [|n IH]; intros s.
  - exists "". by destruct s.
  - destruct s as [|c s]; [by exists ""|].
    destruct (IH s) as (stem & Hs). exists (String c stem).
    rewrite append_cons. simpl. by rewrite <- Hs.
Qed.

Lemma endsWith_spec s suf :
  endsWith s suf = true ↔ ∃ stem, s = stem +:+ suf.
Proof.
  unfold endsWith. rewrite andb_true_iff, String.eqb_eq. split.
  - intros [_ Hd]. destruct (drop_splits (String.length s - String.length suf) s)
      as (stem & Hs). exists stem. by rewrite <- Hd.
  - intros (stem & ->). rewrite length_append. split.
    + apply Nat.leb_le. lia.
    + replace (String.length stem + String.length suf - String.length suf)%nat
        with (String.length stem) by lia.
      apply drop_append.
Qed.

Lemma isSourceFile_word f word :
  word ∈ filter_words → substring word f → isSourceFile f = false.
Proof.
  intros Hword Hsub%includes_spec. unfold isSourceFile.
  repeat match goal with
  | |- context [if includes f ?w then _ else _] =>
      destruct (includes f w) eqn:?; [done|]
  end.
  unfold filter_words in Hword.
  repeat (apply elem_of_cons in Hword as [->|Hword]; [congruence|]).
  by apply not_elem_of_nil in Hword.
Qed.

(** X4: the candidate filter accepts exactly the paths that end in ".ts",
    ".tsx", ".jsx" or ".js" and hold none of the nine words anywhere, the
    names of the directories on the path included. *)
Theorem isSourceFile_accepts f :
  isSourceFile f = true ↔
  (∀ word, word ∈ filter_words → ¬ substring word f)
  ∧ ∃ suffix stem, suffix ∈ source_suffixes ∧ f = stem +:+ suffix.
Proof.
  split.
  - intros Hf. split.
    + intros word Hword Hsub.
      rewrite (isSourceFile_word f word) in Hf; done.
    + unfold isSourceFile in Hf.
      repeat match type of Hf with
      | context [if includes f ?w then _ else _] =>
          destruct (includes f w); [done|]
      end.
      rewrite !orb_true_iff, !endsWith_spec in Hf. unfold source_suffixes.
      destruct Hf as [[[[s ->]|[s ->]]|[s ->]]|[s ->]];
        [exists ".ts", s | exists ".tsx", s | exists ".jsx", s
         | exists ".js", s];
        (split; [repeat first [left | right] | reflexivity]).
  - intros [Hwords (suffix & stem & Hsuf & ->)]. unfold isSourceFile.
    repeat match goal with
    | |- context [includes ?s ?word] =>
        let H := fresh in
        destruct (includes s word) eqn:H;
        [apply includes_spec in H; destruct (Hwords word);
           [unfold filter_words; repeat first [left | right] | done] |]
    end.
    rewrite !orb_true_iff, !endsWith_spec. unfold source_suffixes in Hsuf.
    repeat (apply elem_of_cons in Hsuf as [->|Hsuf]; [eauto 6|]).
    by apply not_elem_of_nil in Hsuf.
Qed.

(** X5: the words are looked for in the whole path.  So when the root itself
    holds one of them and the walked paths hold the root, no file is a
    source file, and a run inserts nothing. *)
Theorem root_with_filter_word_indexes_nothing E dir word :
  word ∈ filter_words → substring word dir →
  (∀ f, f ∈ traverseFiles E dir → substring dir f) →
  sourceFiles E dir = []
  ∧ ∀ d r w, synchronize E dir d = (r, w) → Forall is_prune (log w).
Proof.
  intros Hword Hdir Hwalk.
  assert (Hnone : sourceFiles E dir = []).
  { unfold sourceFiles. apply elem_of_nil_inv. intros f Hf.
    apply list_elem_of_filter in Hf as [Hsrc Hf].
    rewrite (isSourceFile_word f word) in Hsrc; [done | done |].
    eapply substring_trans; [done | by apply Hwalk]. }
  split; [done|]. intros d r w Hrun.
  destruct (synchronize_journal _ _ _ _ _ Hrun) as [HQ _].
  eapply Forall_impl; [exact HQ|]. intros s Hs.
  destruct s; simpl in *; try done;
    destruct Hs as (src & Hfile & _); rewrite Hnone in Hfile;
    by apply not_elem_of_nil in Hfile.
Qed.

Lemma root_with_filter_word_indexes_nothing_witness :
  sourceFiles Cases.env_tester Cases.tester_root = [].
Proof.
  refine (proj1 (root_with_filter_word_indexes_nothing Cases.env_tester
                   Cases.tester_root "test" _ _ _)).
  - unfold filter_words. left.
  - by exists "/home/", "er/kibana/x-pack/plugins/security_solution".
  - intros f Hf. apply list_elem_of_singleton in Hf as ->.
    by exists "", "/a.ts".
Defined.

(** ** The pruning pass *)

Lemma filter_ext_in {A} (P Q : A → Prop) `{!∀ x, Decision (P x)}
    `{!∀ x, Decision (Q x)} (l : list A) :
  (∀ x, x ∈ l → (P x ↔ Q x)) → filter P l = filter Q l.
Proof.
  induction l as [|x l IH]; intros Hext; [done|].
  assert (Hx : P x ↔ Q x) by (apply Hext; by left).
  assert (Hl : filter P l = filter Q l).
  { apply IH. intros y Hy. apply Hext. by right. }
  destruct (decide (P x)) as [HP|HP].
  - rewrite !filter_cons_True by tauto. by rewrite Hl.
  - rewrite !filter_cons_False by tauto. done.
Qed.

Lemma lookup_foldr_delete_elem (m : gmap Z Vec) (l : list Z) k :
  k ∈ l → foldr delete m l !! k = None.
Proof.
  induction l as [|x l IH]; simpl; [by intros ?%not_elem_of_nil|].
  intros [->|Hk]%elem_of_cons; apply lookup_delete_None; [by left|].
  right. by apply IH.
Qed.

Lemma lookup_foldr_delete_other (m : gmap Z Vec) (l : list Z) k :
  k ∉ l → foldr delete m l !! k = m !! k.
Proof.
  induction l as [|x l IH]; simpl; [done|].
  intros [Hx Hl]%not_elem_of_cons. rewrite lookup_delete_ne by done.
  by apply IH.
Qed.

(** The pruning pass is the first part of a run on an accepted root: the
    creations, the pass, the directory walk (where the run ends when the
    walk rejects), and then the loop over the source files with the counter
    at [Date.now()]. *)
Lemma buildIndex_accepted E dir w :
  includes dir "x-pack/plugins/security_solution" = true →
  buildIndex E dir w
  = (let pruned :=
       (pruningPass E dir
          (MkWorld (db w) ((log w ++ [CreateEmbeddings]) ++ [CreateSymbols])
                   (var_i w))).2 in
     if walk_rejects E dir then (Thrown FsError, pruned)
     else indexFiles E dir (sourceFiles E dir)
            (MkWorld (db pruned) (log pruned) (Date_now E))).
Proof.
  intros Hdir. unfold buildIndex, pruningPass. rewrite Hdir. simpl.
  unfold mbind, M_bind, bind, sql, query, set_i. simpl.
  match goal with |- context [for_of ?rows _ ?w0] =>
    destruct (for_of_pruneSymbol_returns E dir rows w0) as (w1 & ->) end.
  simpl. by destruct (walk_rejects E dir).
Qed.

Lemma filter_all {A} (P : A → Prop) `{!∀ x, Decision (P x)} (l : list A) :
  (∀ x, x ∈ l → P x) → filter P l = l.
Proof.
  induction l as [|x l IH]; intros Hall; [done|].
  rewrite filter_cons_True by (apply Hall; by left).
  f_equal. apply IH. intros y Hy. apply Hall. by right.
Qed.

Lemma gone_names_cons_present E dir x rows :
  present E dir x → gone_names E dir (x :: rows) = gone_names E dir rows.
Proof. intros Hx. unfold gone_names. by rewrite filter_cons_False by tauto. Qed.

Lemma gone_names_cons_gone E dir x rows :
  ¬ present E dir x →
  gone_names E dir (x :: rows) = filename x :: gone_names E dir rows.
Proof. intros Hx. unfold gone_names. by rewrite filter_cons_True by done. Qed.

Lemma pruneSymbol_gone E dir x w :
  ¬ present E dir x →
  pruneSymbol E dir x w
  = (Ok tt,
     MkWorld
       (MkDB (foldr delete (embeddings (db w))
                (select_rowid_where_filename (filename x) (symbols (db w))))
             (filter (λ r, filename r ≠ filename x) (symbols (db w))))
       ((log w ++ [DeleteEmbeddings (filename x)])
        ++ [DeleteSymbols (filename x)])
       (var_i w)).
Proof.
  unfold present, pruneSymbol. intros Hx.
  by destruct (checkIfFileExistsInTheFilesystem E dir (filename x)).
Qed.

Lemma pruneSymbol_present E dir x w :
  present E dir x → pruneSymbol E dir x w = (Ok tt, w).
Proof. unfold present, pruneSymbol. by intros ->. Qed.

Lemma for_of_pruneSymbol_effect E dir rows w :
  ∃ w',
    for_of rows (pruneSymbol E dir) w = (Ok tt, w')
    ∧ var_i w' = var_i w
    ∧ symbols (db w')
      = filter (λ r, filename r ∉ gone_names E dir rows) (symbols (db w))
    ∧ (∀ k, embeddings (db w) !! k = None → embeddings (db w') !! k = None)
    ∧ (∀ r, r ∈ symbols (db w) → filename r ∈ gone_names E dir rows →
            embeddings (db w') !! rowid r = None)
    ∧ (∀ k, (∀ r, r ∈ symbols (db w) → filename r ∈ gone_names E dir rows →
                  rowid r ≠ k) →
            embeddings (db w') !! k = embeddings (db w) !! k).
Proof.
  revert w. induction rows as [|x rows IH]; intros w.
  { exists w. split; [done|]. split; [done|]. split.
    { symmetry. apply filter_all. intros r _. apply not_elem_of_nil. }
    split; [done|]. split; [|done].
    by intros r _ ?%not_elem_of_nil. }
  rewrite for_of_cons. destruct (decide (present E dir x)) as [Hx|Hx].
  { rewrite pruneSymbol_present, gone_names_cons_present by done. apply IH. }
  rewrite pruneSymbol_gone, gone_names_cons_gone by done.
  match goal with |- context [for_of _ _ ?w1] =>
    destruct (IH w1) as (w' & Hrun & Hi & Hsym & Hmono & Hdel & Hkeep) end.
  simpl in *. exists w'. split; [done|]. split; [done|]. split; [|split; [|split]].
  - rewrite Hsym, list_filter_filter. apply filter_ext_in.
    intros r _. rewrite not_elem_of_cons. tauto.
  - intros k Hk. by apply Hmono, lookup_foldr_delete_None.
  - intros r Hr [Hf|Hf]%elem_of_cons.
    + apply Hmono, lookup_foldr_delete_elem.
      unfold select_rowid_where_filename.
      apply list_elem_of_fmap_2. by apply list_elem_of_filter.
    + destruct (decide (filename r = filename x)) as [Heq|Hne].
      * apply Hmono, lookup_foldr_delete_elem.
        unfold select_rowid_where_filename.
        apply list_elem_of_fmap_2. by apply list_elem_of_filter.
      * apply Hdel; [by apply list_elem_of_filter | done].
  - intros k Hk. rewrite Hkeep.
    + apply lookup_foldr_delete_other.
      unfold select_rowid_where_filename.
      intros (r & -> & [Hf Hr]%list_elem_of_filter)%list_elem_of_fmap.
      apply (Hk r Hr); [|done]. rewrite Hf. by left.
    + intros r [_ Hr]%list_elem_of_filter Hf. apply Hk; [done | by right].
Qed.

Lemma gone_names_self E dir rows r :
  r ∈ rows → (filename r ∈ gone_names E dir rows ↔ ¬ present E dir r).
Proof.
  intros Hr. unfold gone_names. rewrite list_elem_of_fmap. split.
  - intros (x & Hf & [Hx _]%list_elem_of_filter).
    unfold present in *. by rewrite Hf.
  - intros Hgone. exists r. split; [done|]. by apply list_elem_of_filter.
Qed.

(** X6: what the pruning pass leaves in symbols: exactly the rows whose file
    is there, in their order.  Every Unit Record of a file that is gone is
    deleted, and no other. *)
Theorem pruning_keeps_the_rows_of_present_files E dir w :
  (pruningPass E dir w).1 = Ok tt
  ∧ symbols (db (pruningPass E dir w).2)
    = filter (present E dir) (symbols (db w)).
Proof.
  unfold pruningPass. rewrite bind_query.
  destruct (for_of_pruneSymbol_effect E dir (symbols (db w)) w)
    as (w' & Hrun & _ & Hsym & _).
  rewrite Hrun. simpl. rewrite Hsym.
  split; [done|]. apply filter_ext_in. intros r Hr.
  rewrite (gone_names_self _ _ _ _ Hr).
  destruct (decide (present E dir r)); tauto.
Qed.

(** X7: what the pruning pass does to embeddings: the vector under a rowid
    goes exactly when that rowid is the implicit rowid of a pruned symbols
    row.  The [embedding_id] of the pruned rows plays no part. *)
Theorem pruning_deletes_vectors_by_symbols_rowid E dir w k :
  ((∃ row, row ∈ symbols (db w) ∧ ¬ present E dir row ∧ rowid row = k) →
   embeddings (db (pruningPass E dir w).2) !! k = None)
  ∧ ((∀ row, row ∈ symbols (db w) → ¬ present E dir row → rowid row ≠ k) →
     embeddings (db (pruningPass E dir w).2) !! k = embeddings (db w) !! k).
Proof.
  unfold pruningPass. rewrite bind_query.
  destruct (for_of_pruneSymbol_effect E dir (symbols (db w)) w)
    as (w' & Hrun & _ & _ & _ & Hdel & Hkeep).
  rewrite Hrun. simpl. split.
  - intros (row & Hrow & Hgone & <-). apply Hdel; [done|].
    by apply gone_names_self.
  - intros Hk. apply Hkeep. intros r Hr Hf. apply Hk; [done|].
    by apply (gone_names_self _ _ _ _ Hr).
Qed.

(** ** Runs that find nothing to do, and files that stay unknown *)

Lemma for_of_pruneSymbol_present E dir rows w :
  Forall (present E dir) rows →
  for_of rows (pruneSymbol E dir) w = (Ok tt, w).
Proof.
  induction 1 as [|x rows Hx _ IH]; [done|].
  by rewrite for_of_cons, pruneSymbol_present.
Qed.

Lemma indexFile_known E dir file w :
  named (db w) →
  (∃ row, row ∈ symbols (db w) ∧ hash row = sha1 E file) →
  indexFile E dir file w = (Ok AlreadyKnown, w).
Proof.
  intros Hnamed Hrow. unfold indexFile. rewrite bind_query.
  by rewrite checkIfFileHashExists_true.
Qed.

Lemma indexFiles_known E dir files w :
  Forall (λ f, read_rejects E f = false) files →
  named (db w) →
  (∀ file, file ∈ files →
           ∃ row, row ∈ symbols (db w) ∧ hash row = sha1 E file) →
  indexFiles E dir files w
  = (Ok (replicate (length files) AlreadyKnown), w).
Proof.
  intros Hread Hnamed.
  induction Hread as [|file files Hfile _ IH]; intros Hall; [done|].
  simpl. rewrite Hfile. unfold mbind, M_bind, bind. simpl.
  rewrite indexFile_known by (try done; apply Hall; by left).
  rewrite IH by (intros f Hf; apply Hall; by right). done.
Qed.

(** Whether the reads succeed or not, known files leave the world as it
    is. *)
Lemma indexFiles_known_world E dir files w :
  named (db w) →
  (∀ file, file ∈ files →
           ∃ row, row ∈ symbols (db w) ∧ hash row = sha1 E file) →
  (indexFiles E dir files w).2 = w.
Proof.
  intros Hnamed. induction files as [|file files IH]; intros Hall; [done|].
  simpl. unfold mbind, M_bind, bind, fs_call.
  destruct (read_rejects E file); simpl; [done|].
  rewrite indexFile_known by (try done; apply Hall; by left).
  assert (Hrest : (indexFiles E dir files w).2 = w)
    by (apply IH; intros f Hf; apply Hall; by right).
  by destruct (indexFiles E dir files w) as [[vs|e] w1].
Qed.

(** X8: a run on a tree that did not change since the store was built does
    nothing but the two creations: when every file of the store is there
    and every source file has its fingerprint on record, the database is
    left as it was, and when the walk returns and the source files can be
    hashed and read, each of them is skipped. *)
Theorem settled_run_changes_nothing E dir d :
  substring "x-pack/plugins/security_solution" dir →
  named d →
  Forall (present E dir) (symbols d) →
  (∀ file, file ∈ sourceFiles E dir →
           ∃ row, row ∈ symbols d ∧ hash row = sha1 E file) →
  db (synchronize E dir d).2 = d
  ∧ log (synchronize E dir d).2 = [CreateEmbeddings; CreateSymbols]
  ∧ (walk_rejects E dir = false →
     Forall (λ f, read_rejects E f = false) (sourceFiles E dir) →
     synchronize E dir d
     = (Ok (replicate (length (sourceFiles E dir)) AlreadyKnown),
        MkWorld d [CreateEmbeddings; CreateSymbols] (Date_now E))).
Proof.
  intros Hdir%includes_spec Hnamed Hpresent Hknown.
  unfold synchronize. rewrite buildIndex_accepted by done.
  unfold pruningPass. rewrite bind_query. simpl.
  rewrite for_of_pruneSymbol_present by done. simpl.
  destruct (walk_rejects E dir).
  - by repeat split.
  - rewrite indexFiles_known_world by done. repeat split.
    intros _ Hread. by rewrite indexFiles_known.
Qed.

Lemma settled_run_changes_nothing_witness :
  synchronize Demo.env_changed Demo.root
    (db (synchronize Demo.env_changed Demo.root Demo.store_a).2)
  = (Ok [AlreadyKnown],
     MkWorld (db (synchronize Demo.env_changed Demo.root Demo.store_a).2)
             [CreateEmbeddings; CreateSymbols] 1700000005000).
Proof.
  refine (proj2 (proj2 (settled_run_changes_nothing Demo.env_changed
                          Demo.root _ _ _ _ _)) _ _).
  - by exists "/kibana/", "".
  - vm_compute. repeat constructor; discriminate.
  - vm_compute. repeat constructor.
  - intros file Hfile. vm_compute in Hfile.
    apply list_elem_of_singleton in Hfile as ->.
    exists (SymbolRow 2 "/a.ts" "H2" Demo.unitB 1700000005001).
    split; [vm_compute; right; left | reflexivity].
  - reflexivity.
  - vm_compute. repeat constructor.
Defined.

(** The loop over the source files ends at the first file that cannot be
    hashed or read. *)
Lemma indexFiles_unreadable E dir pre file post w :
  Forall (λ f, read_rejects E f = false) pre →
  read_rejects E file = true →
  indexFiles E dir (pre ++ file :: post) w
  = (Thrown FsError, (indexFiles E dir pre w).2).
Proof.
  intros Hpre Hfile. revert w.
  induction Hpre as [|f pre Hf Hpre IH]; intros w; simpl.
  { by rewrite Hfile. }
  rewrite Hf. unfold mbind, M_bind, bind. simpl.
  destruct (indexFile_returns E dir f w) as (v & w1 & ->).
  rewrite IH.
  by destruct (indexFiles_returns E dir pre w1 Hpre) as (vs & w2 & -> & _).
Qed.

(** X22: a rejection of the file system ends the run where it happens.
    When the walk rejects, the run ends after the pruning pass.  When
    [sha1] or [readFile] rejects on a source file, the run ends there: the
    files before it were worked through, the files after it are not looked
    at. *)
Theorem fs_rejection_ends_the_run E dir d :
  includes dir "x-pack/plugins/security_solution" = true →
  (walk_rejects E dir = true →
   synchronize E dir d
   = (Thrown FsError,
      (pruningPass E dir (MkWorld d [CreateEmbeddings; CreateSymbols] 0)).2))
  ∧ (∀ pre file post,
       walk_rejects E dir = false →
       sourceFiles E dir = pre ++ file :: post →
       Forall (λ f, read_rejects E f = false) pre →
       read_rejects E file = true →
       synchronize E dir d
       = (Thrown FsError,
          (indexFiles E dir pre (afterPruning E dir d)).2)).
Proof.
  intros Hdir. unfold synchronize. rewrite buildIndex_accepted by done.
  simpl. split.
  - by intros ->.
  - intros pre file post -> -> Hpre Hfile.
    by apply indexFiles_unreadable.
Qed.

Lemma fs_rejection_ends_the_run_witness :
  synchronize Cases.env_unreadable Demo.root Demo.empty_store
  = (Thrown FsError,
     (indexFiles Cases.env_unreadable Demo.root [Demo.root +:+ "/a.ts"]
        (afterPruning Cases.env_unreadable Demo.root Demo.empty_store)).2)
  ∧ filename <$>
      symbols (db (synchronize Cases.env_unreadable Demo.root
                     Demo.empty_store).2)
    = ["/a.ts"].
Proof.
  split; [|vm_compute; reflexivity].
  apply (proj2 (fs_rejection_ends_the_run Cases.env_unreadable Demo.root
                  Demo.empty_store eq_refl)
           [Demo.root +:+ "/a.ts"] (Demo.root +:+ "/b.ts") []).
  - reflexivity.
  - reflexivity.
  - repeat constructor.
  - reflexivity.
Defined.

(** X9: after a file was worked through to the end with at least one unit
    stored, its fingerprint is on record: the next look at the same
    content, later in this run or in the next one, skips it.  (Ids above
    the counter are taken to be free, and the relative name not empty.) *)
Theorem indexed_file_is_known_afterwards E dir file w units :
  named (db w) →
  checkIfFileHashExists (sha1 E file) (db w) = false →
  replace_with_empty file dir ≠ "" →
  generateMetadata E (readFile E file) = Some units →
  Forall (λ x, noise x = true
               ∨ is_Some (generateEmbedding E (unit_text x))) units →
  (∃ x, x ∈ units ∧ noise x = false) →
  fresh_above w →
  ∃ w' new,
    indexFile E dir file w = (Ok Completed, w')
    ∧ symbols (db w') = symbols (db w) ++ new
    ∧ metadata <$> new = filter (λ x, noise x = false) units
    ∧ checkIfFileHashExists (sha1 E file) (db w') = true
    ∧ indexFile E dir file w' = (Ok AlreadyKnown, w').
Proof.
  intros Hnamed Hnew Hrel Hsum Hunits (x & Hx & Hclean) Hfresh.
  destruct (indexFile_changed E dir file w _ Hnew Hsum)
    as (w0 & Hsym0 & Hi0 & Hemb0 & ->).
  destruct (for_of_stored_prefix E (replace_with_empty file dir)
              (sha1 E file) units [] w0 Hunits)
    as (w1 & new & Hrun & Hsym1 & Hmeta & Hrows).
  { intros id Hid. apply Hemb0, Hfresh. lia. }
  rewrite app_nil_r in Hrun. rewrite Hrun. simpl.
  assert (Hnamed1 : named (db w1)).
  { unfold named in *. rewrite Hsym1, Hsym0. apply Forall_app. split; [done|].
    eapply Forall_impl; [exact Hrows|]. by intros r [-> _]. }
  assert (Hrow : ∃ row, row ∈ symbols (db w1) ∧ hash row = sha1 E file).
  { destruct new as [|r0 new].
    - assert (Hin : x ∈ filter (λ x, noise x = false) units)
        by by apply list_elem_of_filter.
      rewrite <- Hmeta in Hin. by apply not_elem_of_nil in Hin.
    - exists r0. apply Forall_cons in Hrows as [[_ Hh] _].
      split; [|done]. rewrite Hsym1. apply elem_of_app. right. by left. }
  exists w1, new. rewrite Hsym1, Hsym0.
  split; [done|]. split; [done|]. split; [done|].
  split; [by apply checkIfFileHashExists_true | by apply indexFile_known].
Qed.

Lemma indexed_file_is_known_afterwards_witness :
  ∃ w' new,
    indexFile Demo.env_changed Demo.root (Demo.root +:+ "/a.ts")
      (MkWorld Demo.store_a [] 1700000005000)
    = (Ok Completed, w')
    ∧ symbols (db w') = symbols Demo.store_a ++ new
    ∧ metadata <$> new = [Demo.unitB; Demo.unitC]
    ∧ checkIfFileHashExists "H2" (db w') = true
    ∧ indexFile Demo.env_changed Demo.root (Demo.root +:+ "/a.ts") w'
      = (Ok AlreadyKnown, w').
Proof.
  apply (indexed_file_is_known_afterwards Demo.env_changed Demo.root
           (Demo.root +:+ "/a.ts") (MkWorld Demo.store_a [] 1700000005000)
           [Demo.unitB; Demo.unitC]).
  - repeat constructor; discriminate.
  - reflexivity.
  - discriminate.
  - reflexivity.
  - constructor; [right; eexists; reflexivity|].
    constructor; [right; eexists; reflexivity | constructor].
  - exists Demo.unitB. split; [left | reflexivity].
  - intros id Hid. simpl in *. apply lookup_singleton_ne. lia.
Defined.

(** X10: a file whose summary holds no unit that passes the name filter (an
    empty summary included) gets no row, so its fingerprint is never on
    record: every run sends it to the summariser again. *)
Theorem file_without_units_stays_unknown E dir file w units :
  checkIfFileHashExists (sha1 E file) (db w) = false →
  generateMetadata E (readFile E file) = Some units →
  Forall (λ x, noise x = true) units →
  ∃ w',
    indexFile E dir file w = (Ok Completed, w')
    ∧ symbols (db w') = symbols (db w)
    ∧ checkIfFileHashExists (sha1 E file) (db w') = false.
Proof.
  intros Hnew Hsum Hunits.
  destruct (indexFile_changed E dir file w _ Hnew Hsum)
    as (w0 & Hsym0 & _ & _ & ->).
  exists w0. rewrite <- (app_nil_r units), for_of_noise_prefix by done.
  split; [done|]. split; [done|].
  unfold checkIfFileHashExists, pluck_by_hash in *. by rewrite Hsym0.
Qed.

Lemma file_without_units_stays_unknown_witness :
  ∃ w',
    indexFile Cases.env_only_noise Demo.root (Demo.root +:+ "/index.ts")
      (MkWorld Demo.store_a [] 1700000005000)
    = (Ok Completed, w')
    ∧ symbols (db w') = symbols Demo.store_a
    ∧ checkIfFileHashExists "H9" (db w') = false.
Proof.
  apply (file_without_units_stays_unknown Cases.env_only_noise Demo.root
           (Demo.root +:+ "/index.ts")
           (MkWorld Demo.store_a [] 1700000005000) [Demo.unitExport]).
  - reflexivity.
  - reflexivity.
  - repeat constructor.
Defined.

(** X11: every row that a run adds to symbols belongs to a file that the walk
    returned and the filter accepted: it carries that file's relative name
    and the fingerprint the file has now. *)
Theorem new_rows_belong_to_source_files E dir d r w row :
  synchronize E dir d = (r, w) → row ∈ symbols (db w) →
  row ∈ symbols d
  ∨ ∃ file, file ∈ traverseFiles E dir ∧ isSourceFile file = true
            ∧ filename row = replace_with_empty file dir
            ∧ hash row = sha1 E file.
Proof.
  intros Hrun Hin. destruct (synchronize_journal _ _ _ _ _ Hrun) as [HQ Hr].
  destruct (replay_symbols _ _ _ _ Hr Hin) as [?|(s & Hs & Hrow)]; [by left|].
  right. rewrite Forall_forall in HQ. specialize (HQ _ Hs).
  destruct s; simpl in Hrow; try done.
  destruct HQ as (src & Hsrc & -> & -> & _).
  destruct Hrow as (-> & -> & _).
  apply list_elem_of_filter in Hsrc as [Hok Hsrc]. by exists src.
Qed.

Lemma new_rows_belong_to_source_files_witness :
  SymbolRow 2 "/a.ts" "H2" Demo.unitB 1700000005001 ∈ symbols Demo.store_a
  ∨ ∃ file, file ∈ traverseFiles Demo.env_changed Demo.root
            ∧ isSourceFile file = true
            ∧ "/a.ts" = replace_with_empty file Demo.root
            ∧ "H2" = sha1 Demo.env_changed file.
Proof.
  apply (new_rows_belong_to_source_files Demo.env_changed Demo.root
           Demo.store_a _ _ (SymbolRow 2 "/a.ts" "H2" Demo.unitB 1700000005001)
           eq_refl).
  vm_compute. right. left.
Defined.

(** ** Vector references stay unique *)

Lemma preserves_silent {A} I (m : M A) :
  (∀ w r w', m w = (r, w') → w' = w) → preserves I m.
Proof. intros Hm w r w' HI Hrun. by rewrite (Hm _ _ _ Hrun). Qed.

Lemma preserves_bind {A B} I (m : M A) (k : A → M B) :
  preserves I m → (∀ a, preserves I (k a)) → preserves I (m ≫= k).
Proof.
  intros Hm Hk w r w' HI Hrun. unfold mbind, M_bind, bind in Hrun.
  destruct (m w) as [[a|e] w1] eqn:Hmw.
  - eapply Hk; [|exact Hrun]. eapply Hm; [exact HI | exact Hmw].
  - injection Hrun as <- <-. eapply Hm; [exact HI | exact Hmw].
Qed.

Lemma preserves_try_catch {A} I (m : M A) (handler : error → M A) :
  preserves I m → (∀ e, preserves I (handler e)) →
  preserves I (try_catch m handler).
Proof.
  intros Hm Hh w r w' HI Hrun. unfold try_catch in Hrun.
  destruct (m w) as [[a|e] w1] eqn:Hmw.
  - injection Hrun as <- <-. eapply Hm; [exact HI | exact Hmw].
  - eapply Hh; [|exact Hrun]. eapply Hm; [exact HI | exact Hmw].
Qed.

Lemma preserves_for_of {A} I (l : list A) (body : A → M unit) :
  (∀ x, preserves I (body x)) → preserves I (for_of l body).
Proof.
  intros Hbody. induction l as [|x l IH]; simpl.
  - apply preserves_silent. by intros w r w' [= <- <-].
  - apply preserves_bind; [apply Hbody | intros _; apply IH].
Qed.

Lemma ids_filter (P : symbol_row → Prop) `{!∀ x, Decision (P x)}
    (bound : Z) (syms : list symbol_row) :
  NoDup (embedding_id <$> syms) →
  Forall (λ row, embedding_id row ≤ bound) syms →
  NoDup (embedding_id <$> filter P syms)
  ∧ Forall (λ row, embedding_id row ≤ bound) (filter P syms).
Proof.
  induction syms as [|x syms IH]; [done|].
  rewrite fmap_cons, NoDup_cons, Forall_cons. intros [Hx Hnd] [Hb Hall].
  destruct (IH Hnd Hall) as [IH1 IH2].
  destruct (decide (P x)).
  - rewrite filter_cons_True by done.
    rewrite fmap_cons, NoDup_cons, Forall_cons. repeat split; try done.
    intros (y & Hy & [_ Hin]%list_elem_of_filter)%list_elem_of_fmap.
    apply Hx. rewrite Hy. by apply list_elem_of_fmap_2.
  - by rewrite filter_cons_False by done.
Qed.

(** The three ways the loop body for one unit can end: nothing happened,
    only the counter moved (the insert into embeddings threw), or the unit
    was stored. *)
Lemma indexItem_cases E rel h it w r w' :
  indexItem E rel h it w = (r, w') →
  w' = w
  ∨ w' = MkWorld (db w) (log w) (var_i w + 1)
  ∨ ∃ a,
      embeddings (db w) !! (var_i w + 1) = None
      ∧ w' = MkWorld
          (MkDB (<[var_i w + 1 := a]> (embeddings (db w)))
                (symbols (db w)
                 ++ [SymbolRow (next_rowid (symbols (db w))) rel h it
                       (var_i w + 1)]))
          ((log w ++ [InsertEmbedding (var_i w + 1) a])
           ++ [InsertSymbol (var_i w + 1) rel h it])
          (var_i w + 1).
Proof.
  destruct (noise it) eqn:Hn.
  { rewrite indexItem_noise by done. intros [= <- <-]. by left. }
  destruct (generateEmbedding E (unit_text it)) as [a|] eqn:Ha.
  2: { rewrite indexItem_refused by done. intros [= <- <-]. by left. }
  destruct (embeddings (db w) !! (var_i w + 1)) as [old|] eqn:Hfree.
  - destruct (noise_false _ Hn) as (H1 & H2 & H3).
    unfold indexItem. rewrite H1, H2, H3, Ha.
    unfold mbind, M_bind, bind, sql; simpl. rewrite Hfree.
    intros [= <- <-]. right. by left.
  - rewrite (indexItem_stored _ _ _ _ a) by done.
    intros [= <- <-]. right. right. by exists a.
Qed.

Lemma indexItem_ids E rel h it : preserves ids_in_order (indexItem E rel h it).
Proof.
  intros w r w' [Hnd Hb] Hrun.
  destruct (indexItem_cases _ _ _ _ _ _ _ Hrun) as [->|[->|(a & _ & ->)]].
  - done.
  - split; [done|]. simpl. eapply Forall_impl; [exact Hb|].
    intros row Hrow. simpl in Hrow. lia.
  - split; simpl.
    + rewrite fmap_app. apply NoDup_app. split; [done|]. split.
      * intros id (row & -> & Hrow)%list_elem_of_fmap Hid.
        apply list_elem_of_singleton in Hid. simpl in Hid.
        rewrite Forall_forall in Hb. specialize (Hb _ Hrow). lia.
      * apply NoDup_singleton.
    + apply Forall_app. split.
      * eapply Forall_impl; [exact Hb|]. intros row Hrow. simpl in Hrow. lia.
      * constructor; [simpl; lia | constructor].
Qed.

Lemma indexFile_preserves E dir file (I : world → Prop) :
  (∀ f, preserves I (sql (DeleteEmbeddings f))) →
  (∀ rel h it, preserves I (indexItem E rel h it)) →
  preserves I (indexFile E dir file).
Proof.
  intros Hdel Hitem. unfold indexFile.
  apply preserves_bind; [apply preserves_silent; by intros w r w' [= <- <-]|].
  intros known. destruct known.
  { apply preserves_silent. by intros w r w' [= <- <-]. }
  apply preserves_try_catch.
  2: { intros e. apply preserves_silent. by intros w r w' [= <- <-]. }
  apply preserves_bind; [apply preserves_silent; by intros w r w' [= <- <-]|].
  intros knownFile. apply preserves_bind.
  { apply preserves_silent. intros w r w'.
    destruct (generateMetadata _ _); by intros [= <- <-]. }
  intros units. apply preserves_bind.
  { destruct (truthy_opt knownFile); [apply Hdel|].
    apply preserves_silent. by intros w r w' [= <- <-]. }
  intros _. apply preserves_bind.
  - apply preserves_for_of. intros it. apply Hitem.
  - intros _. apply preserves_silent. by intros w r w' [= <- <-].
Qed.

Lemma indexFiles_preserves E dir files (I : world → Prop) :
  (∀ f, preserves I (sql (DeleteEmbeddings f))) →
  (∀ rel h it, preserves I (indexItem E rel h it)) →
  preserves I (indexFiles E dir files).
Proof.
  intros Hdel Hitem. induction files as [|file files IH]; simpl.
  - apply preserves_silent. by intros w r w' [= <- <-].
  - apply preserves_bind.
    { apply preserves_silent. intros w r w'. unfold fs_call.
      destruct (read_rejects E file); by intros [= <- <-]. }
    intros _.
    apply preserves_bind; [by apply indexFile_preserves | intros v].
    apply preserves_bind; [apply IH | intros vs].
    apply preserves_silent. by intros w r w' [= <- <-].
Qed.

(** X12: a run keeps the vectorRefs of the Unit Records apart: when no two rows
    share an [embedding_id] before the run and none of them lies above
    [Date.now()], no two rows share one after the run. *)
Theorem run_keeps_vector_references_apart E dir d r w :
  NoDup (embedding_id <$> symbols d) →
  Forall (λ row, embedding_id row ≤ Date_now E) (symbols d) →
  synchronize E dir d = (r, w) →
  NoDup (embedding_id <$> symbols (db w)).
Proof.
  intros Hnd Hb Hrun. unfold synchronize in Hrun.
  destruct (includes dir "x-pack/plugins/security_solution") eqn:Hdir.
  2: { unfold buildIndex in Hrun. rewrite Hdir in Hrun.
       by injection Hrun as <- <-. }
  rewrite buildIndex_accepted in Hrun by done.
  unfold pruningPass in Hrun. rewrite bind_query in Hrun. simpl in Hrun.
  match type of Hrun with context [for_of ?rows _ ?w0] =>
    destruct (for_of_pruneSymbol_effect E dir rows w0)
      as (w1 & Hp & _ & Hsym & _) end.
  rewrite Hp in Hrun. simpl in Hrun, Hsym.
  destruct (walk_rejects E dir).
  { injection Hrun as <- <-. rewrite Hsym.
    by apply (ids_filter _ (Date_now E)). }
  refine (proj1 (indexFiles_preserves E dir _ ids_in_order _ _ _ _ _ _ Hrun)).
  - intros f w0 r0 w0' HI Hs. unfold sql in Hs. simpl in Hs.
    by injection Hs as <- <-.
  - apply indexItem_ids.
  - unfold ids_in_order. simpl. rewrite Hsym. by apply ids_filter.
Qed.

Lemma run_keeps_vector_references_apart_witness :
  NoDup (embedding_id <$>
           symbols (db (synchronize Demo.env_changed Demo.root
                          Demo.store_a).2)).
Proof.
  apply (run_keeps_vector_references_apart Demo.env_changed Demo.root
           Demo.store_a
           (synchronize Demo.env_changed Demo.root Demo.store_a).1).
  - apply NoDup_singleton.
  - constructor; [vm_compute; discriminate | constructor].
  - vm_compute. reflexivity.
Defined.

(** ** What runQuery returns *)

Lemma join_symbols_inv hits syms r :
  r ∈ join_symbols hits syms →
  ∃ e f, e ∈ hits ∧ f ∈ syms ∧ embedding_id f = hit_rowid e
         ∧ r = ResultRow (hit_rowid e) (hit_distance e)
                 (filename f) (metadata f).
Proof.
  unfold join_symbols.
  intros (e & (f & Hr & [Hid Hf]%list_elem_of_filter)%list_elem_of_bind & He)
    %list_elem_of_bind.
  apply list_elem_of_singleton in Hr. by exists e, f.
Qed.

Lemma sorted_hits_inv E qe (emb : gmap Z Vec) e :
  e ∈ order_by hit_distance
        ((λ x, Hit x.1 (distance E x.2 qe)) <$> map_to_list emb) →
  ∃ a, emb !! hit_rowid e = Some a ∧ hit_distance e = distance E a qe.
Proof.
  rewrite order_by_perm.
  intros ([id a] & -> & Hin%elem_of_map_to_list)%list_elem_of_fmap.
  by exists a.
Qed.

Lemma nearest_inv E qe n (emb : gmap Z Vec) e :
  e ∈ nearest E qe n emb →
  ∃ a, emb !! hit_rowid e = Some a ∧ hit_distance e = distance E a qe.
Proof.
  unfold nearest. intros He. apply (sorted_hits_inv E qe emb).
  by apply (subseteq_take n).
Qed.

(** A stored vector that has a row and is not joined into the result is
    behind the cut: at least as far as every hit. *)
Lemma nearest_cut E qe n (emb : gmap Z Vec) syms e row a :
  e ∈ nearest E qe n emb →
  row ∈ syms → emb !! embedding_id row = Some a →
  (∀ r', r' ∈ join_symbols (nearest E qe n emb) syms →
         res_rowid r' ≠ embedding_id row) →
  Qle (hit_distance e) (distance E a qe).
Proof.
  intros He Hrow Ha Hmissing. unfold nearest in He.
  set (l := order_by hit_distance
              ((λ x, Hit x.1 (distance E x.2 qe)) <$> map_to_list emb)) in *.
  assert (Hsorted : StronglySorted (ascending hit_distance)
                      (take n l ++ skipn n l)).
  { rewrite take_drop. apply order_by_sorted. }
  assert (Hin : Hit (embedding_id row) (distance E a qe) ∈ l).
  { unfold l. rewrite order_by_perm. apply list_elem_of_fmap.
    exists (embedding_id row, a). split; [done|].
    by apply elem_of_map_to_list. }
  rewrite <- (take_drop n l) in Hin.
  apply elem_of_app in Hin as [Hin|Hin].
  - destruct (Hmissing
      (ResultRow (embedding_id row) (distance E a qe)
         (filename row) (metadata row))); [|done].
    by apply (join_symbols_elem _ _
                (Hit (embedding_id row) (distance E a qe))).
  - apply (StronglySorted_app_1_elem_of _ _ _ _ _ Hsorted He Hin).
Qed.



(** X14: every row of a result joins a symbols row with the vector its
    [embedding_id] names, at the distance of that vector from the query.
    So a vector without a Unit Record and a Unit Record without a vector
    never show up in a result. *)
Theorem runQuery_rows_are_pairs E q d res r :
  runQuery E q d = Some res → r ∈ res →
  ∃ qe row a,
    generateEmbedding E q = Some qe
    ∧ row ∈ symbols d
    ∧ embeddings d !! embedding_id row = Some a
    ∧ r = ResultRow (embedding_id row) (distance E a qe)
            (filename row) (metadata row).
Proof.
  intros (qe & Hq & _ & ->)%runQuery_Some. rewrite order_by_perm.
  intros (e & f & He & Hf & Hid & ->)%join_symbols_inv.
  destruct (nearest_inv _ _ _ _ _ He) as (a & Ha & Hd).
  exists qe, f, a. rewrite Hid, Hd. done.
Qed.

Lemma runQuery_rows_are_pairs_witness :
  ∃ qe row a,
    generateEmbedding Demo.env_query "alerts" = Some qe
    ∧ row ∈ symbols Demo.store_three
    ∧ embeddings Demo.store_three !! embedding_id row = Some a
    ∧ ResultRow 12 (1 # 10) "/a.ts" Demo.unitB
      = ResultRow (embedding_id row) (distance Demo.env_query a qe)
          (filename row) (metadata row).
Proof.
  apply (runQuery_rows_are_pairs Demo.env_query "alerts" Demo.store_three
           _ _ eq_refl).
  vm_compute. left.
Defined.

(** X15: on an empty embeddings table runQuery has no result (the search
    of the index fails there and nothing in runQuery guards against it).
    On a table that holds vectors of which none belongs to a Unit Record,
    as pruning leaves it, the result is the empty list. *)
Theorem runQuery_on_a_store_without_pairs E q d :
  (size (embeddings d) = 0%nat → runQuery E q d = None)
  ∧ (∀ qe,
       generateEmbedding E q = Some qe →
       size (embeddings d) ≠ 0%nat →
       (∀ row, row ∈ symbols d → embeddings d !! embedding_id row = None) →
       runQuery E q d = Some []).
Proof.
  split.
  - intros Hempty. destruct (runQuery E q d) as [res|] eqn:Hrun; [|done].
    by apply runQuery_Some in Hrun as (qe & _ & Hsize & _).
  - intros qe Hq Hsize Hnone. apply runQuery_Some. exists qe.
    split; [done|]. split; [done|]. symmetry.
    apply elem_of_nil_inv. intros r. rewrite order_by_perm.
    intros (e & f & He & Hf & Hid & _)%join_symbols_inv.
    destruct (nearest_inv _ _ _ _ _ He) as (a & Ha & _).
    rewrite <- Hid, (Hnone _ Hf) in Ha. done.
Qed.

Lemma runQuery_on_a_store_without_pairs_witness :
  runQuery Demo.env_query "alerts" Demo.empty_store = None
  ∧ runQuery Demo.env_query "alerts" (MkDB (embeddings Demo.store_a) [])
    = Some [].
Proof.
  split.
  - by apply (proj1 (runQuery_on_a_store_without_pairs Demo.env_query
                       "alerts" Demo.empty_store)).
  - apply (proj2 (runQuery_on_a_store_without_pairs Demo.env_query
                    "alerts" (MkDB (embeddings Demo.store_a) []))
             [0 # 1]%Q).
    + reflexivity.
    + vm_compute. discriminate.
    + by intros row ?%not_elem_of_nil.
Defined.

(** X16: the rows of a result are the nearest ones: a vector that has a Unit
    Record and is missing from the result is at least as far from the
    query as every row that was returned. *)
Theorem runQuery_returns_the_nearest E q d res qe r row a :
  runQuery E q d = Some res →
  generateEmbedding E q = Some qe →
  r ∈ res →
  row ∈ symbols d → embeddings d !! embedding_id row = Some a →
  (∀ r', r' ∈ res → res_rowid r' ≠ embedding_id row) →
  Qle (res_distance r) (distance E a qe).
Proof.
  intros (qe' & Hq' & _ & ->)%runQuery_Some Hq. rewrite Hq in Hq'.
  injection Hq' as <-. rewrite order_by_perm.
  intros (e & f & He & Hf & Hid & ->)%join_symbols_inv Hrow Ha Hmissing.
  simpl. apply (nearest_cut E qe LIMIT (embeddings d) (symbols d) e row a);
    try done.
  intros r' Hr'. apply Hmissing. by rewrite order_by_perm.
Qed.

Lemma runQuery_returns_the_nearest_witness :
  Qle (1 # 100) (21 # 100).
Proof.
  apply (runQuery_returns_the_nearest Demo.env_query "alerts"
           Cases.store_many _ [0 # 1]%Q
           (ResultRow 1 (1 # 100) "/a.ts" Demo.unitA)
           (SymbolRow 21 "/a.ts" "H1" Demo.unitA 21) [21 # 100]%Q eq_refl).
  - reflexivity.
  - vm_compute. left.
  - vm_compute. do 20 right. left.
  - vm_compute. reflexivity.
  - intros r' Hr'. vm_compute in Hr'.
    repeat (apply elem_of_cons in Hr' as [->|Hr']; [done|]).
    by apply not_elem_of_nil in Hr'.
Defined.

(** ** Rows are only deleted by pruning *)

(** X13: the update pass never deletes from symbols: a row whose file is there
    when the run starts is still in the table when the run ends, also when
    the file has changed and new rows were added for it. *)
Theorem rows_of_present_files_survive E dir d r w row :
  synchronize E dir d = (r, w) →
  row ∈ symbols d → present E dir row →
  row ∈ symbols (db w).
Proof.
  intros Hrun Hrow Hpresent. unfold synchronize in Hrun.
  destruct (includes dir "x-pack/plugins/security_solution") eqn:Hdir.
  2: { unfold buildIndex in Hrun. rewrite Hdir in Hrun.
       by injection Hrun as <- <-. }
  rewrite buildIndex_accepted in Hrun by done.
  unfold pruningPass in Hrun. rewrite bind_query in Hrun. simpl in Hrun.
  match type of Hrun with context [for_of ?rows _ ?w0] =>
    destruct (for_of_pruneSymbol_effect E dir rows w0)
      as (w1 & Hp & _ & Hsym & _) end.
  rewrite Hp in Hrun. simpl in Hrun, Hsym.
  assert (Hkept : row ∈ symbols (db w1)).
  { rewrite Hsym. apply list_elem_of_filter. split; [|done].
    rewrite (gone_names_self _ _ _ _ Hrow). tauto. }
  destruct (walk_rejects E dir); [by injection Hrun as <- <-|].
  refine (indexFiles_preserves E dir _ (λ w, row ∈ symbols (db w))
            _ _ _ _ _ _ Hrun).
  - intros f w0 r0 w0' HI Hs. unfold sql in Hs. simpl in Hs.
    by injection Hs as <- <-.
  - intros rel h it w0 r0 w0' HI Hs.
    destruct (indexItem_cases _ _ _ _ _ _ _ Hs) as [->|[->|(a & _ & ->)]];
      [done | done | simpl; apply elem_of_app; by left].
  - done.
Qed.

Lemma rows_of_present_files_survive_witness :
  SymbolRow 1 "/a.ts" "H1" Demo.unitA 1700000000001
    ∈ symbols (db (synchronize Demo.env_changed Demo.root Demo.store_a).2).
Proof.
  apply (rows_of_present_files_survive Demo.env_changed Demo.root
           Demo.store_a
           (synchronize Demo.env_changed Demo.root Demo.store_a).1).
  - vm_compute. reflexivity.
  - left.
  - reflexivity.
Defined.

(** ** Witnesses for the facts about whole runs *)

Lemma synchronize_completes_witness :
  ∃ vs w,
    synchronize Demo.env_embed_fails Demo.root Demo.empty_store = (Ok vs, w)
    ∧ length vs = length (sourceFiles Demo.env_embed_fails Demo.root).
Proof.
  apply (synchronize_completes Demo.env_embed_fails Demo.root).
  - reflexivity.
  - reflexivity.
  - vm_compute. repeat constructor.
Defined.

Lemma pruning_precedes_insertions_witness :
  ∃ pruning updates,
    log (synchronize Demo.env_changed Demo.root Demo.store_a).2
    = pruning ++ updates
    ∧ Forall is_prune pruning ∧ Forall is_update updates.
Proof.
  apply (pruning_precedes_insertions Demo.env_changed Demo.root Demo.store_a
           (synchronize Demo.env_changed Demo.root Demo.store_a).1).
  vm_compute. reflexivity.
Defined.

Lemma synchronize_named_witness :
  named (db (synchronize Demo.env_changed Demo.root Demo.store_a).2).
Proof.
  apply (synchronize_named Demo.env_changed Demo.root Demo.store_a
           (synchronize Demo.env_changed Demo.root Demo.store_a).1).
  - intros file Hfile. vm_compute in Hfile.
    apply list_elem_of_singleton in Hfile as ->. vm_compute. discriminate.
  - repeat constructor; discriminate.
  - vm_compute. reflexivity.
Defined.

(** ** The fingerprint look-up *)

Lemma head_filter_split {A} (P : A → Prop) `{!∀ x, Decision (P x)}
    (l : list A) r :
  head (filter P l) = Some r ↔
  ∃ pre post, l = pre ++ r :: post ∧ Forall (λ x, ¬ P x) pre ∧ P r.
Proof.
  induction l as [|x l IH].
  { split; [done|]. intros (pre & post & Hl & _). by destruct pre. }
  destruct (decide (P x)) as [Hx|Hx].
  - rewrite filter_cons_True by done. simpl. split.
    + intros [= ->]. exists [], l. by repeat split.
    + intros (pre & post & Hl & Hpre & Hr). destruct pre as [|y pre].
      * by injection Hl as -> _.
      * injection Hl as -> _. by apply Forall_cons in Hpre as [? _].
  - rewrite filter_cons_False by done. rewrite IH. split.
    + intros (pre & post & -> & Hpre & Hr). exists (x :: pre), post.
      repeat split; [|done]. by constructor.
    + intros (pre & post & Hl & Hpre & Hr). destruct pre as [|y pre].
      * injection Hl as -> _. done.
      * injection Hl as -> ->. apply Forall_cons in Hpre as [_ Hpre].
        by exists pre, post.
Qed.

(** X20: the fingerprint look-up is decided by the first row of symbols that
    carries the fingerprint: it answers yes exactly when there is such a
    row and its filename is not empty.  A first match with an empty
    filename answers no, whatever rows follow. *)
Theorem checkIfFileHashExists_first_row h d :
  checkIfFileHashExists h d = true ↔
  ∃ pre row post,
    symbols d = pre ++ row :: post
    ∧ Forall (λ x, hash x ≠ h) pre
    ∧ hash row = h ∧ filename row ≠ "".
Proof.
  unfold checkIfFileHashExists, pluck_by_hash.
  destruct (head (filter (λ r, hash r = h) (symbols d))) as [r0|] eqn:Hhead;
    simpl.
  - apply head_filter_split in Hhead as (pre & post & Hl & Hpre & Hr).
    split.
    + intros Ht. exists pre, r0, post. repeat split; try done.
      by destruct (filename r0).
    + intros (pre' & row & post' & Hl' & Hpre' & Hrow & Hname).
      assert (Hsame : head (filter (λ r, hash r = h) (symbols d)) = Some row).
      { apply head_filter_split. by exists pre', post'. }
      assert (Hagain : head (filter (λ r, hash r = h) (symbols d)) = Some r0).
      { apply head_filter_split. by exists pre, post. }
      rewrite Hsame in Hagain. injection Hagain as ->.
      by destruct (filename r0).
  - split; [done|].
    intros (pre & row & post & Hl & Hpre & Hrow & _).
    assert (Hsome : head (filter (λ r, hash r = h) (symbols d)) = Some row).
    { apply head_filter_split. by exists pre, post. }
    by rewrite Hsome in Hhead.
Qed.

(** ** Failures before anything was stored *)

Lemma checkIfFileHashExists_false H d :
  Forall (λ row, hash row ≠ H) (symbols d) →
  checkIfFileHashExists H d = false.
Proof.
  intros Hall. unfold checkIfFileHashExists, pluck_by_hash.
  destruct (filter (λ r, hash r = H) (symbols d)) as [|r0 l] eqn:Hf; [done|].
  assert (Hr0 : r0 ∈ filter (λ r, hash r = H) (symbols d))
    by (rewrite Hf; by left).
  apply list_elem_of_filter in Hr0 as [Hh Hr0].
  rewrite Forall_forall in Hall. by destruct (Hall _ Hr0).
Qed.

Lemma unrecorded_log H d l v :
  Forall (λ row, hash row ≠ H) (symbols d) →
  Forall (λ s, ¬ records H s) l →
  unrecorded H (MkWorld d l v).
Proof. by split. Qed.

Lemma indexItem_unrecorded E rel h it H :
  h ≠ H → preserves (unrecorded H) (indexItem E rel h it).
Proof.
  intros Hh w r w' [Hsym Hlog] Hrun.
  destruct (indexItem_cases _ _ _ _ _ _ _ Hrun) as [->|[->|(a & _ & ->)]].
  - done.
  - done.
  - split; simpl.
    + apply Forall_app. split; [done|]. by repeat constructor.
    + rewrite !Forall_app. repeat split; [done|..]; repeat constructor.
      * by intros [].
      * simpl. done.
Qed.

Lemma DeleteEmbeddings_unrecorded H f :
  preserves (unrecorded H) (sql (DeleteEmbeddings f)).
Proof.
  intros w r w' [Hsym Hlog] Hrun. unfold sql in Hrun. simpl in Hrun.
  injection Hrun as <- <-. split; simpl; [done|].
  apply Forall_app. split; [done|]. repeat constructor. by intros [].
Qed.

Lemma DeleteSymbols_unrecorded H f :
  preserves (unrecorded H) (sql (DeleteSymbols f)).
Proof.
  intros w r w' [Hsym Hlog] Hrun. unfold sql in Hrun. simpl in Hrun.
  injection Hrun as <- <-. split; simpl.
  - rewrite Forall_forall in *.
    intros row [_ Hrow]%list_elem_of_filter. by apply Hsym.
  - apply Forall_app. split; [done|]. repeat constructor. by intros [].
Qed.

Lemma pruneSymbol_unrecorded E dir H x :
  preserves (unrecorded H) (pruneSymbol E dir x).
Proof.
  unfold pruneSymbol.
  destruct (checkIfFileExistsInTheFilesystem _ _ _).
  - apply preserves_silent. by intros w r w' [= <- <-].
  - apply preserves_bind; [apply DeleteEmbeddings_unrecorded|].
    intros _. apply DeleteSymbols_unrecorded.
Qed.

Lemma pruningPass_unrecorded E dir H :
  preserves (unrecorded H) (pruningPass E dir).
Proof.
  unfold pruningPass. apply preserves_bind.
  - apply preserves_silent. by intros w r w' [= <- <-].
  - intros rows. apply preserves_for_of. intros x.
    apply pruneSymbol_unrecorded.
Qed.

(** [indexFile_preserves] for an invariant that holds for the inserts
    under the file's own name and fingerprint. *)
Lemma indexFile_preserves_own E dir file (I : world → Prop) :
  (∀ f, preserves I (sql (DeleteEmbeddings f))) →
  (∀ it, preserves I (indexItem E (replace_with_empty file dir)
                        (sha1 E file) it)) →
  preserves I (indexFile E dir file).
Proof.
  intros Hdel Hitem. unfold indexFile.
  apply preserves_bind; [apply preserves_silent; by intros w r w' [= <- <-]|].
  intros known. destruct known.
  { apply preserves_silent. by intros w r w' [= <- <-]. }
  apply preserves_try_catch.
  2: { intros e. apply preserves_silent. by intros w r w' [= <- <-]. }
  apply preserves_bind; [apply preserves_silent; by intros w r w' [= <- <-]|].
  intros knownFile. apply preserves_bind.
  { apply preserves_silent. intros w r w'.
    destruct (generateMetadata _ _); by intros [= <- <-]. }
  intros units. apply preserves_bind.
  { destruct (truthy_opt knownFile); [apply Hdel|].
    apply preserves_silent. by intros w r w' [= <- <-]. }
  intros _. apply preserves_bind.
  - apply preserves_for_of. intros it. apply Hitem.
  - intros _. apply preserves_silent. by intros w r w' [= <- <-].
Qed.

Lemma indexFile_other_fingerprint E dir file H :
  sha1 E file ≠ H → preserves (unrecorded H) (indexFile E dir file).
Proof.
  intros Hh. apply indexFile_preserves_own.
  - intros f. apply DeleteEmbeddings_unrecorded.
  - intros it. by apply indexItem_unrecorded.
Qed.

(** A file whose fingerprint is not on record is not skipped. *)
Lemma indexFile_unknown E dir file w :
  checkIfFileHashExists (sha1 E file) (db w) = false →
  ∃ v w', indexFile E dir file w = (Ok v, w') ∧ v ≠ AlreadyKnown.
Proof.
  intros Hnew.
  destruct (generateMetadata E (readFile E file)) as [units|] eqn:Hsum.
  - destruct (indexFile_changed E dir file w units Hnew Hsum)
      as (w0 & _ & _ & _ & ->).
    destruct (for_of _ _ w0) as [[[]|e] w1]; by eexists _, _.
  - exists (Caught MetadataError), w. split; [|done].
    unfold indexFile, try_catch, mbind, M_bind, bind, query.
    by rewrite Hnew, Hsum.
Qed.

Lemma first_unit_split units it :
  first_unit units = Some it →
  ∃ pre post, units = pre ++ it :: post
              ∧ Forall (λ x, noise x = true) pre ∧ noise it = false.
Proof.
  unfold first_unit.
  intros (pre & post & -> & Hpre & Hit)%head_filter_split.
  exists pre, post. repeat split; [|done].
  eapply Forall_impl; [exact Hpre|]. simpl. intros x Hx.
  by destruct (noise x).
Qed.

(** What a file that fails early leaves: the verdict of the [catch] block,
    and no row or insert under its fingerprint. *)
Lemma indexFile_fails_early E dir file w :
  unrecorded (sha1 E file) w → fails_early E file = true →
  ∃ e w',
    indexFile E dir file w = (Ok (Caught e), w')
    ∧ (e = MetadataError ∨ e = EmbeddingError)
    ∧ symbols (db w') = symbols (db w)
    ∧ unrecorded (sha1 E file) w'.
Proof.
  intros [Hsym Hlog] Hearly.
  pose proof (checkIfFileHashExists_false _ _ Hsym) as Hnew.
  unfold fails_early in Hearly.
  destruct (generateMetadata E (readFile E file)) as [units|] eqn:Hsum.
  - destruct (first_unit units) as [it|] eqn:Hfirst; [|done].
    destruct (generateEmbedding E (unit_text it)) eqn:Hemb; [done|].
    apply first_unit_split in Hfirst as (pre & post & -> & Hpre & Hit).
    unfold indexFile, try_catch, mbind, M_bind, bind, query.
    rewrite Hnew, Hsum. simpl.
    destruct (truthy_opt _); simpl.
    + rewrite for_of_noise_prefix, for_of_cons, indexItem_refused by done.
      eexists _, _. split; [done|]. split; [by right|]. split; [done|].
      split; simpl; [done|]. apply Forall_app. split; [done|].
      repeat constructor. by intros [].
    + rewrite for_of_noise_prefix, for_of_cons, indexItem_refused by done.
      eexists _, _. split; [done|]. split; [by right|]. by repeat split.
  - exists MetadataError, w. split; [|by repeat split; try left].
    unfold indexFile, try_catch, mbind, M_bind, bind, query.
    by rewrite Hnew, Hsum.
Qed.

(** The loop over the source files when every file of the fingerprint [H]
    fails early: a failure is recorded for each of them, and [H] stays off
    the record. *)
Lemma indexFiles_unrecorded E dir H files w r w' :
  (∀ f, f ∈ files → sha1 E f = H → fails_early E f = true) →
  unrecorded H w →
  indexFiles E dir files w = (r, w') →
  unrecorded H w'
  ∧ ∀ vs, r = Ok vs →
      Forall2 (λ f v, sha1 E f = H →
                      v = Caught MetadataError ∨ v = Caught EmbeddingError)
              files vs.
Proof.
  revert w r w'. induction files as [|file files IH]; intros w r w' Hall Hw.
  { simpl. intros [= <- <-]. split; [done|]. intros vs [= <-]. constructor. }
  simpl. unfold mbind, M_bind, bind, fs_call.
  destruct (read_rejects E file); simpl.
  { intros [= <- <-]. split; [done | by intros vs]. }
  assert (Hfile : ∃ v w1, indexFile E dir file w = (Ok v, w1)
            ∧ unrecorded H w1
            ∧ (sha1 E file = H →
               v = Caught MetadataError ∨ v = Caught EmbeddingError)).
  { destruct (decide (sha1 E file = H)) as [Heq|Hne].
    - subst H.
      destruct (indexFile_fails_early E dir file w Hw)
        as (e & w1 & Hrun & He & _ & Hw1); [apply Hall; [by left | done]|].
      exists (Caught e), w1. split; [done|]. split; [done|].
      intros _. by destruct He as [->| ->]; [left | right].
    - destruct (indexFile_returns E dir file w) as (v & w1 & Hrun).
      exists v, w1. split; [done|]. split; [|done].
      by apply (indexFile_other_fingerprint E dir file H Hne w _ _ Hw Hrun). }
  destruct Hfile as (v & w1 & -> & Hw1 & Hv).
  assert (Hall' : ∀ f, f ∈ files → sha1 E f = H → fails_early E f = true)
    by (intros f Hf; apply Hall; by right).
  destruct (indexFiles E dir files w1) as [[vs|e] w2] eqn:Hrest.
  - intros [= <- <-].
    destruct (IH w1 _ _ Hall' Hw1 Hrest) as [Hw2 Hvs].
    split; [done|]. intros vs' [= <-]. constructor; [done | by apply Hvs].
  - intros [= <- <-].
    destruct (IH w1 _ _ Hall' Hw1 Hrest) as [Hw2 _].
    split; [done | by intros vs].
Qed.

(** The first file of a fingerprint that is off the record is not skipped,
    when the files can be read. *)
Lemma indexFiles_first_unknown E dir H pre file post w :
  Forall (λ f, read_rejects E f = false) (pre ++ file :: post) →
  Forall (λ f, sha1 E f ≠ H) pre → sha1 E file = H →
  unrecorded H w →
  ∃ vs w' v,
    indexFiles E dir (pre ++ file :: post) w = (Ok vs, w')
    ∧ vs !! length pre = Some v ∧ v ≠ AlreadyKnown.
Proof.
  intros Hread Hpre Hfile. revert w Hread.
  induction Hpre as [|f pre Hf _ IH]; intros w Hread Hw.
  - simpl in *. apply Forall_cons in Hread as [Hr Hread].
    rewrite Hr. unfold mbind, M_bind, bind. simpl.
    destruct (indexFile_unknown E dir file w) as (v & w1 & -> & Hv).
    { apply checkIfFileHashExists_false. rewrite Hfile. apply Hw. }
    destruct (indexFiles_returns E dir post w1 Hread) as (vs & w2 & -> & _).
    by exists (v :: vs), w2, v.
  - simpl in *. apply Forall_cons in Hread as [Hr Hread].
    rewrite Hr. unfold mbind, M_bind, bind. simpl.
    destruct (indexFile_returns E dir f w) as (v0 & w1 & Hrun).
    rewrite Hrun.
    destruct (IH w1 Hread) as (vs & w2 & v & -> & Hlook & Hv).
    { by apply (indexFile_other_fingerprint E dir f H Hf w _ _ Hw Hrun). }
    by exists (v0 :: vs), w2, v.
Qed.

(** The world in which the loop over the source files starts. *)
Lemma pruned_unrecorded E dir d H v :
  Forall (λ row, hash row ≠ H) (symbols d) →
  unrecorded H
    (MkWorld
       (db (pruningPass E dir
              (MkWorld d [CreateEmbeddings; CreateSymbols] 0)).2)
       (log (pruningPass E dir
               (MkWorld d [CreateEmbeddings; CreateSymbols] 0)).2)
       v).
Proof.
  intros Hd.
  destruct (pruningPass E dir (MkWorld d [CreateEmbeddings; CreateSymbols] 0))
    as [r0 w0] eqn:Hp.
  apply (pruningPass_unrecorded E dir H) in Hp as [Hsym Hlog]; [done|].
  split; simpl; [done|]. repeat constructor; by intros [].
Qed.

(** A run on a store without the fingerprint [H] does not skip the first
    source file that has it. *)
Lemma synchronize_first_unknown E dir d H pre file post :
  Forall (λ row, hash row ≠ H) (symbols d) →
  includes dir "x-pack/plugins/security_solution" = true →
  walk_rejects E dir = false →
  Forall (λ f, read_rejects E f = false) (sourceFiles E dir) →
  sourceFiles E dir = pre ++ file :: post →
  Forall (λ f, sha1 E f ≠ H) pre → sha1 E file = H →
  ∃ vs w v,
    synchronize E dir d = (Ok vs, w)
    ∧ vs !! length pre = Some v ∧ v ≠ AlreadyKnown.
Proof.
  intros Hd Hdir Hwalk Hread Hfiles Hpre Hfile.
  unfold synchronize. rewrite buildIndex_accepted by done.
  simpl. rewrite Hwalk, Hfiles. rewrite Hfiles in Hread.
  apply (indexFiles_first_unknown E dir H); try done.
  by apply pruned_unrecorded.
Qed.

(** C5, amended: take a fingerprint that no Unit Record carries when the
    run starts, and let every source file of the run with that fingerprint
    fail before any of its units is stored (the summariser fails or its
    answer is malformed, or the embedder fails on the first unit that
    passes the name filter).  Then a run that returns records such a
    failure for each of these files; and whether the run returns or
    rejects, no insert of the run carries the fingerprint, no Unit Record
    of the resulting store carries it, and the fingerprint check still
    fails.  In a following run on the resulting store, whatever the
    tree and the services are by then, the first source file with that
    fingerprint is not skipped as already known, when the run gets through
    its calls into the file system. *)
Theorem early_failure_persists_no_fingerprint E dir d r w H :
  synchronize E dir d = (r, w) →
  Forall (λ row, hash row ≠ H) (symbols d) →
  (∀ f, f ∈ sourceFiles E dir → sha1 E f = H → fails_early E f = true) →
  (∀ vs, r = Ok vs →
     Forall2 (λ f v, sha1 E f = H →
                     v = Caught MetadataError ∨ v = Caught EmbeddingError)
             (sourceFiles E dir) vs)
  ∧ Forall (λ s, ¬ records H s) (log w)
  ∧ Forall (λ row, hash row ≠ H) (symbols (db w))
  ∧ checkIfFileHashExists H (db w) = false
  ∧ (∀ E' dir' pre file post,
       includes dir' "x-pack/plugins/security_solution" = true →
       walk_rejects E' dir' = false →
       Forall (λ f, read_rejects E' f = false) (sourceFiles E' dir') →
       sourceFiles E' dir' = pre ++ file :: post →
       Forall (λ f, sha1 E' f ≠ H) pre → sha1 E' file = H →
       ∃ vs w' v,
         synchronize E' dir' (db w) = (Ok vs, w')
         ∧ vs !! length pre = Some v ∧ v ≠ AlreadyKnown).
Proof.
  intros Hrun Hd Hearly.
  assert (Hend : unrecorded H w
            ∧ ∀ vs, r = Ok vs →
                Forall2 (λ f v, sha1 E f = H →
                           v = Caught MetadataError
                           ∨ v = Caught EmbeddingError)
                        (sourceFiles E dir) vs).
  { unfold synchronize in Hrun.
    destruct (includes dir "x-pack/plugins/security_solution") eqn:Hdir.
    2: { unfold buildIndex in Hrun. rewrite Hdir in Hrun.
         injection Hrun as <- <-. split; [by split | by intros vs]. }
    rewrite buildIndex_accepted in Hrun by done. simpl in Hrun.
    destruct (walk_rejects E dir).
    { injection Hrun as <- <-. split; [|by intros vs].
      pose proof (pruned_unrecorded E dir d H 0 Hd) as [Hsym Hlog].
      by split. }
    apply (indexFiles_unrecorded E dir H _ _ _ _ Hearly) in Hrun; [done|].
    by apply pruned_unrecorded. }
  destruct Hend as [[Hsym Hlog] Hvs].
  split; [done|]. split; [done|]. split; [done|].
  split; [by apply checkIfFileHashExists_false|].
  intros E' dir' pre file post. by apply synchronize_first_unknown.
Qed.

Lemma early_failure_persists_no_fingerprint_witness :
  (synchronize Cases.env_twins Demo.root Demo.store_a).1
  = Ok [Caught MetadataError; Caught EmbeddingError]
  ∧ Forall (λ row, hash row ≠ "H2")
      (symbols (db (synchronize Cases.env_twins Demo.root Demo.store_a).2))
  ∧ checkIfFileHashExists "H2"
      (db (synchronize Cases.env_twins Demo.root Demo.store_a).2) = false
  ∧ ∃ vs w' v,
      synchronize Demo.env_changed Demo.root
        (db (synchronize Cases.env_twins Demo.root Demo.store_a).2)
      = (Ok vs, w')
      ∧ vs !! 0%nat = Some v ∧ v ≠ AlreadyKnown.
Proof.
  destruct (early_failure_persists_no_fingerprint Cases.env_twins Demo.root
              Demo.store_a
              (synchronize Cases.env_twins Demo.root Demo.store_a).1
              (synchronize Cases.env_twins Demo.root Demo.store_a).2 "H2")
    as (_ & _ & Hsym & Hcheck & Hnext).
  - by destruct (synchronize _ _ _).
  - repeat constructor. discriminate.
  - intros f Hf _. vm_compute in Hf.
    apply elem_of_cons in Hf as [->|Hf]; [reflexivity|].
    apply list_elem_of_singleton in Hf as ->. reflexivity.
  - split; [vm_compute; reflexivity|]. split; [done|]. split; [done|].
    apply (Hnext Demo.env_changed Demo.root [] (Demo.root +:+ "/a.ts") []).
    + reflexivity.
    + reflexivity.
    + vm_compute. repeat constructor.
    + reflexivity.
    + constructor.
    + reflexivity.
Defined.

(** Without the proviso on the other files of the fingerprint C5 fails as
    well: the summariser fails on [/a.ts], [/b.ts] has the same fingerprint
    and is stored, and the next run skips [/a.ts]. *)
Lemma twin_file_persists_the_fingerprint :
  (synchronize Cases.env_twin_stored Demo.root Demo.empty_store).1
  = Ok [Caught MetadataError; Completed]
  ∧ (filename <$>
       symbols (db (synchronize Cases.env_twin_stored Demo.root
                      Demo.empty_store).2),
     hash <$>
       symbols (db (synchronize Cases.env_twin_stored Demo.root
                      Demo.empty_store).2))
    = (["/b.ts"], ["H2"])
  ∧ (synchronize Cases.env_twin_stored Demo.root
       (db (synchronize Cases.env_twin_stored Demo.root
              Demo.empty_store).2)).1
    = Ok [AlreadyKnown; AlreadyKnown].
Proof. repeat split; vm_compute; reflexivity. Qed.
